(** * Line detection pipeline: configuration store and frame pipeline

    A shallow embedding of the two programs of the repository,

    - [Line_detection.py]      (the base variant, modules [Base], [BaseMain]),
    - [line_follower_main.py]  (the extended variant, modules [Extended],
                                [ExtendedMain]),

    followed by the properties established about them.

    Conventions of the embedding.

    - Python objects are [pyval]s, a dict being a finite map on its string
      keys; a Python [float] is a binary64 [float], an [int] a [Z].
    - A function that may raise returns a [result]; [print] appends to a log.
    - [config.json] and the medium it lives on are a [filesys]. [json.load]
      and [json.dump] are inverse to each other on JSON values, so a file is
      modelled by the value it holds.
    - The two threads of a run - [main] on the main thread, and
      [FrameProcessor.run] - are an interleaving machine: [step] executes one
      statement of one thread, each statement touching the shared objects
      (the flag, the queue, the lock, one key of the dict) at most once, and
      a schedule is the order in which the threads take their steps. A
      statement that blocks ([with config_lock], [join()], [get()] on an
      empty queue) leaves the state as it is.
    - What the collaborators deliver in a run is fixed by a [world]: whether
      the camera opens, what each [camera.read()] returns, where each
      trackbar stands in each iteration, what each [cv2.waitKey(1)] of the
      consumer returns, how the medium answers a write, and whether building
      the settings window raises. The image algorithms ([cvtColor],
      [inRange], [Canny], [HoughLinesP], [line], [imshow]) are taken to
      return normally; their results play no part in what is proved.
    - The fields [pushed], [popped], [update], [published] and [observed] of
      the state are history only: no statement reads them. *)

From Stdlib Require Import ZArith Floats Lia List Bool.
From stdpp Require Import base option list gmap strings.

Set Warnings "-inexact-float,-register-all".
#[local] Open Scope Z_scope.

(** ** Python values and exceptions *)

Inductive exn : Type :=
  | KeyError
  | TypeError
  | JSONDecodeError
  | OSError.

Inductive result (A : Type) : Type :=
  | Ok (a : A)
  | Raise (e : exn).
Arguments Ok {A} a.
Arguments Raise {A} e.

#[global] Instance result_ret : MRet result := fun _ a => Ok a.

#[global] Instance result_bind : MBind result := fun _ _ k r =>
  match r with
  | Ok a => k a
  | Raise e => Raise e
  end.

(** The values [json.load] can produce; a dict is a finite map on its string
    keys. *)
Inductive pyval : Type :=
  | VNone
  | VBool (b : bool)
  | VInt (z : Z)
  | VFloat (f : float)
  | VStr (s : string)
  | VList (l : list pyval)
  | VDict (d : gmap string pyval).

(** [v[k]] for a string key [k]. *)
Definition py_getitem (v : pyval) (k : string) : result pyval :=
  match v with
  | VDict d => match d !! k with
               | Some x => Ok x
               | None => Raise KeyError
               end
  | _ => Raise TypeError
  end.

(** [v[k] = x] for a string key [k]. *)
Definition py_setitem (v : pyval) (k : string) (x : pyval) : result pyval :=
  match v with
  | VDict d => Ok (VDict (<[k := x]> d))
  | _ => Raise TypeError
  end.

Fixpoint contains_str (k s : string) : bool :=
  if String.prefix k s then true
  else match s with
       | EmptyString => false
       | String _ s' => contains_str k s'
       end.

Definition is_str (k : string) (v : pyval) : bool :=
  match v with
  | VStr s => bool_decide (s = k)
  | _ => false
  end.

(** [k in v] for a string [k]: key membership in a dict, element equality in
    a list, substring test in a str, [TypeError] on what is not iterable. *)
Definition py_contains (k : string) (v : pyval) : result bool :=
  match v with
  | VDict d => Ok (bool_decide (is_Some (d !! k)))
  | VList l => Ok (existsb (is_str k) l)
  | VStr s => Ok (contains_str k s)
  | _ => Raise TypeError
  end.

(** Numbers: [bool] is a subclass of [int]. *)
Inductive num : Type :=
  | NInt (z : Z)
  | NFloat (f : float).

Definition as_num (v : pyval) : result num :=
  match v with
  | VBool b => Ok (NInt (if b then 1 else 0))
  | VInt z => Ok (NInt z)
  | VFloat f => Ok (NFloat f)
  | _ => Raise TypeError
  end.

(** Python compares an int with a float exactly, not by converting the int. *)
Definition Z_le_float (z : Z) (f : float) : bool :=
  match Prim2SF f with
  | S754_nan => false
  | S754_infinity s => negb s
  | S754_zero _ => z <=? 0
  | S754_finite s m e =>
      let v := if s then Z.neg m else Z.pos m in
      if 0 <=? e then z <=? v * 2 ^ e else z * 2 ^ (- e) <=? v
  end.

Definition float_le_Z (f : float) (z : Z) : bool :=
  match Prim2SF f with
  | S754_nan => false
  | S754_infinity s => s
  | S754_zero _ => 0 <=? z
  | S754_finite s m e =>
      let v := if s then Z.neg m else Z.pos m in
      if 0 <=? e then v * 2 ^ e <=? z else v <=? z * 2 ^ (- e)
  end.

Definition num_le (a b : num) : bool :=
  match a, b with
  | NInt x, NInt y => x <=? y
  | NInt x, NFloat g => Z_le_float x g
  | NFloat f, NInt y => float_le_Z f y
  | NFloat f, NFloat g => PrimFloat.leb f g
  end.

(** [a <= b]. *)
Definition py_le (a b : pyval) : result bool :=
  x ← as_num a;
  y ← as_num b;
  Ok (num_le x y).

(** [lo <= v <= hi], a chained comparison: [v <= hi] is evaluated only when
    [lo <= v] holds. *)
Definition py_between (lo : Z) (v : pyval) (hi : Z) : result bool :=
  c ← py_le (VInt lo) v;
  if (c : bool) then py_le v (VInt hi) else Ok false.

(** [all(key in config for key in keys)]: stops at the first [False]. *)
Fixpoint py_all_in (keys : list string) (config : pyval) : result bool :=
  match keys with
  | [] => Ok true
  | k :: ks =>
      c ← py_contains k config;
      if (c : bool) then py_all_in ks config else Ok false
  end.

(** [float(z)], as the division [z / 100.0] converts its left operand: round
    to nearest, ties to even (exact below 2^53; Python raises on an int
    beyond the binary64 range, which a trackbar position, a C int, never
    is). *)
Definition float_of_Z (z : Z) : float :=
  SF2Prim (binary_normalize prec emax z 0 false).

(** ** The persisted file *)

(** What is at the path [config.json]. *)
Inductive file_state : Type :=
  | Absent                (* no regular file at the path *)
  | Unreadable            (* a file that [open] or [read] fails on *)
  | Garbled               (* a file whose text is not JSON *)
  | Holds (v : pyval).    (* a file holding the JSON text of [v] *)

(** How the medium answers [open(path, "w")] and the write that follows. *)
Inductive medium : Type :=
  | Healthy
  | OpenDenied            (* [open] raises, the file is untouched *)
  | WriteBroken.          (* [open] truncates, then the write raises *)

Record filesys : Type := FileSys {
  config_json : file_state;
  storage : medium
}.

Definition isfile (fs : filesys) : bool :=
  match config_json fs with
  | Absent => false
  | _ => true
  end.

(** [with open(path, "r") as file: json.load(file)]. *)
Definition json_load (fs : filesys) : result pyval :=
  match config_json fs with
  | Absent => Raise OSError
  | Unreadable => Raise OSError
  | Garbled => Raise JSONDecodeError
  | Holds v => Ok v
  end.

(** [with open(path, "w") as file: json.dump(config, file)]. *)
Definition json_dump (config : pyval) (fs : filesys) : filesys * result unit :=
  match storage fs with
  | Healthy => (FileSys (Holds config) Healthy, Ok tt)
  | OpenDenied => (fs, Raise OSError)
  | WriteBroken => (FileSys Garbled WriteBroken, Raise OSError)
  end.

(** Lines written to standard output by [print]. *)
Inductive logline : Type :=
  | InvalidConfigValues           (* "Invalid config values. Reverting to defaults." *)
  | ConfigReadError (e : exn)     (* "An error occurred while reading the config file: {e}" *)
  | CameraNotOpened               (* "Error: Camera could not be opened." *)
  | CantReceiveFrame.             (* "Error: Can't receive frame (stream end?). Exiting ..." *)

(** ** Line_detection.py: configuration store *)

Module Base.

Definition default_items : list (string * pyval) :=
  [("min_val", VInt 0); ("max_val", VInt 255)].

Definition default_config : pyval := VDict (list_to_map default_items).

(** [0 <= config["min_val"] <= 255 and 0 <= config["max_val"] <= 255] *)
Definition valid (config : pyval) : result bool :=
  a ← py_getitem config "min_val";
  c ← py_between 0 a 255;
  if (c : bool) then
    b ← py_getitem config "max_val";
    py_between 0 b 255
  else Ok false.

Definition load_config (fs : filesys) : pyval * list logline :=
  if isfile fs then
    match (config ← json_load fs;
           c ← valid config;
           Ok (config, c)) with
    | Ok (config, true) => (config, [])
    | Ok (_, false) => (default_config, [InvalidConfigValues])
    | Raise e => (default_config, [ConfigReadError e])
    end
  else (default_config, []).

Definition save_config (min_val max_val : pyval) (fs : filesys)
  : filesys * result unit :=
  let config := VDict (<["min_val" := min_val]> (<["max_val" := max_val]> ∅)) in
  json_dump config fs.

End Base.

(** ** line_follower_main.py: configuration store *)

Module Extended.

Definition default_items : list (string * pyval) :=
  [("min_val", VInt 0); ("max_val", VInt 255); ("hough_threshold", VInt 50);
   ("min_line_length", VInt 10); ("max_line_gap", VInt 5);
   ("rho", VFloat 1.0%float)].

Definition default_config : pyval := VDict (list_to_map default_items).

Definition load_config (fs : filesys) : pyval * list logline :=
  if isfile fs then
    match (config ← json_load fs;
           c ← py_all_in (default_items.*1) config;
           Ok (config, c)) with
    | Ok (config, true) => (config, [])
    | Ok (_, false) => (default_config, [InvalidConfigValues])
    | Raise e => (default_config, [ConfigReadError e])
    end
  else (default_config, []).

Definition save_config (config : pyval) (fs : filesys) : filesys * result unit :=
  json_dump config fs.

(** [max(0.01, rho_scaled / 100.0)]: [max] keeps its first argument unless
    a later one is strictly greater. *)
Definition rho_of_slider (rho_scaled : Z) : float :=
  let x := PrimFloat.div (float_of_Z rho_scaled) 100%float in
  if PrimFloat.ltb 0.01%float x then x else 0.01%float.

End Extended.


(** ** The two programs as instances of one pipeline *)

(** One trackbar of the settings window: [cv2.createTrackbar(slider_name,
    'settings', <from config[slider_key]>, slider_count, ...)] at setup, and
    [config[slider_key] = slider_value(cv2.getTrackbarPos(slider_name,
    'settings'))] in every capture iteration. *)
Record slider : Type := Slider {
  slider_name : string;
  slider_count : Z;
  slider_key : string;
  slider_value : Z -> pyval
}.

(** What differs between [Line_detection.py] and [line_follower_main.py]. *)
Record program : Type := Program {
  load_config : filesys -> pyval * list logline;
  sliders : list slider;      (* the trackbars, in the order of the source *)
  lookups : list string;      (* the keys [run] reads under the lock, in order *)
  save_on_exit : pyval -> filesys -> filesys * result unit
}.

Module BaseMain.

Definition sliders : list slider :=
  [Slider "min_val" 255 "min_val" VInt; Slider "max_val" 255 "max_val" VInt].

Definition lookups : list string := ["min_val"; "max_val"].

(** [save_config(config["min_val"], config["max_val"])] *)
Definition save_on_exit (config : pyval) (fs : filesys) : filesys * result unit :=
  match (a ← py_getitem config "min_val";
         b ← py_getitem config "max_val";
         Ok (a, b)) with
  | Ok (a, b) => Base.save_config a b fs
  | Raise e => (fs, Raise e)
  end.

Definition prog : program :=
  Program Base.load_config sliders lookups save_on_exit.

End BaseMain.

Module ExtendedMain.

Definition sliders : list slider :=
  [Slider "min_val" 255 "min_val" VInt;
   Slider "max_val" 255 "max_val" VInt;
   Slider "threshold" 255 "hough_threshold" VInt;
   Slider "min_line_length" 100 "min_line_length" VInt;
   Slider "max_line_gap" 50 "max_line_gap" VInt;
   Slider "rho" 1000 "rho" (fun z => VFloat (Extended.rho_of_slider z))].

Definition lookups : list string :=
  ["min_val"; "max_val"; "hough_threshold"; "min_line_length";
   "max_line_gap"; "rho"].

Definition prog : program :=
  Program Extended.load_config sliders lookups Extended.save_config.

End ExtendedMain.

(** ** The frame pipeline: [main] and [FrameProcessor.run] interleaved *)

Inductive thread : Type :=
  | Main
  | Processor.

#[global] Instance thread_eq_dec : EqDecision thread.
Proof. solve_decision. Defined.

(** Where the consumer thread is in [FrameProcessor.run]. *)
Inductive proc_pc : Type :=
  | PUnborn               (* the thread is not started *)
  | PWhile                (* [while self.running] *)
  | PEmpty                (* [if not self.frame_queue.empty()] *)
  | PGet                  (* [frame = self.frame_queue.get()], [cvtColor] *)
  | PAcquire              (* [with self.config_lock:] *)
  | PLookup (i : nat)     (* the [i]-th read of [self.config]; past the last
                             one, the end of the [with] block *)
  | PDetect               (* [inRange], [Canny], [HoughLinesP], [line], [imshow] *)
  | PWaitKey              (* [if cv2.waitKey(1) & 0xFF == ord('q')] *)
  | PFinished             (* [run] returned *)
  | PRaised (e : exn).    (* [run] ended by an exception *)

Section Pipeline.

Context {frame : Type}.

(** Where the main thread is in [main]. *)
Inductive main_pc : Type :=
  | MLoad               (* [config = load_config()] *)
  | MIsOpened           (* [if not camera.isOpened()] *)
  | MSetup              (* [namedWindow], [createTrackbar] ... *)
  | MStart              (* [FrameProcessor(...)], [start()] *)
  | MWhile              (* [while frame_processor.running] *)
  | MRead               (* [ret, frame = camera.read()], [if not ret] *)
  | MPut (f : frame)    (* [frame_queue.put(frame)] *)
  | MAcquire            (* [with config_lock:] *)
  | MAssign (i : nat)   (* the [i]-th assignment to [config]; past the last
                           one, the end of the [with] block *)
  | MWaitKey            (* [cv2.waitKey(1)] *)
  | MJoin               (* [frame_processor.join()] *)
  | MCameraRelease      (* [camera.release()], [destroyAllWindows()] *)
  | MSave               (* [save_config(...)] *)
  | MReturned           (* [main] returned *)
  | MRaised (e : exn).  (* [main] ended by an exception *)

(** What the collaborators deliver in one run. [setup_error] is the
    exception, if any, raised by [namedWindow], by a [createTrackbar] handed
    the startup value, or by [int(config["rho"] * 100)]; the subscripts
    [config[...]] evaluated there are modelled apart, by [setup_reads]. *)
Record world : Type := World {
  disk : filesys;                     (* the storage at startup *)
  camera_opens : bool;                (* [camera.isOpened()] *)
  setup_error : option exn;           (* raised while the settings window is built *)
  camera_read : nat -> option frame;  (* the [n]-th [camera.read()]: a frame, or [ret] false *)
  trackbar_pos : nat -> string -> Z;  (* [getTrackbarPos(name, ...)] in the [n]-th iteration *)
  key_pressed : nat -> Z              (* the [n]-th [cv2.waitKey(1)] of [run] *)
}.

(** The state of the process:
    - [fs]: the storage holding [config.json];
    - [out]: what [print] has written;
    - [config]: the [config] object shared by [main] and the [FrameProcessor];
    - [lock]: the holder of [config_lock];
    - [queue]: [frame_queue], oldest frame first;
    - [running]: [frame_processor.running];
    - [mpc]: where [main] is;
    - [ppc]: where [FrameProcessor.run] is;
    - [locals]: the local variables [min_val], [max_val], ... of [run];
    - [iter]: number of [camera.read()] calls made;
    - [polls]: number of [cv2.waitKey(1)] calls made by [run];
    - [released]: [camera.release()] was called;
    - [pushed]: history: every frame given to [frame_queue.put];
    - [popped]: history: every frame returned by [frame_queue.get];
    - [update]: history: the assignments of the critical section of [main] under way;
    - [published]: history: the assignments of each completed critical section of [main];
    - [observed]: history: the locals at the end of each critical section of [run]. *)
Record state : Type := State {
  fs : filesys;
  out : list logline;
  config : pyval;
  lock : option thread;
  queue : list frame;
  running : bool;
  mpc : main_pc;
  ppc : proc_pc;
  locals : gmap string pyval;
  iter : nat;
  polls : nat;
  released : bool;
  pushed : list frame;
  popped : list frame;
  update : gmap string pyval;
  published : list (gmap string pyval);
  observed : list (gmap string pyval)
}.

Definition set_fs (x : filesys) (s : state) : state :=
  State x (out s) (config s) (lock s) (queue s) (running s) (mpc s) (ppc s) (locals s) (iter s) (polls s) (released s) (pushed s) (popped s) (update s) (published s) (observed s).
Definition set_out (x : list logline) (s : state) : state :=
  State (fs s) x (config s) (lock s) (queue s) (running s) (mpc s) (ppc s) (locals s) (iter s) (polls s) (released s) (pushed s) (popped s) (update s) (published s) (observed s).
Definition set_config (x : pyval) (s : state) : state :=
  State (fs s) (out s) x (lock s) (queue s) (running s) (mpc s) (ppc s) (locals s) (iter s) (polls s) (released s) (pushed s) (popped s) (update s) (published s) (observed s).
Definition set_lock (x : option thread) (s : state) : state :=
  State (fs s) (out s) (config s) x (queue s) (running s) (mpc s) (ppc s) (locals s) (iter s) (polls s) (released s) (pushed s) (popped s) (update s) (published s) (observed s).
Definition set_queue (x : list frame) (s : state) : state :=
  State (fs s) (out s) (config s) (lock s) x (running s) (mpc s) (ppc s) (locals s) (iter s) (polls s) (released s) (pushed s) (popped s) (update s) (published s) (observed s).
Definition set_running (x : bool) (s : state) : state :=
  State (fs s) (out s) (config s) (lock s) (queue s) x (mpc s) (ppc s) (locals s) (iter s) (polls s) (released s) (pushed s) (popped s) (update s) (published s) (observed s).
Definition set_mpc (x : main_pc) (s : state) : state :=
  State (fs s) (out s) (config s) (lock s) (queue s) (running s) x (ppc s) (locals s) (iter s) (polls s) (released s) (pushed s) (popped s) (update s) (published s) (observed s).
Definition set_ppc (x : proc_pc) (s : state) : state :=
  State (fs s) (out s) (config s) (lock s) (queue s) (running s) (mpc s) x (locals s) (iter s) (polls s) (released s) (pushed s) (popped s) (update s) (published s) (observed s).
Definition set_locals (x : gmap string pyval) (s : state) : state :=
  State (fs s) (out s) (config s) (lock s) (queue s) (running s) (mpc s) (ppc s) x (iter s) (polls s) (released s) (pushed s) (popped s) (update s) (published s) (observed s).
Definition set_iter (x : nat) (s : state) : state :=
  State (fs s) (out s) (config s) (lock s) (queue s) (running s) (mpc s) (ppc s) (locals s) x (polls s) (released s) (pushed s) (popped s) (update s) (published s) (observed s).
Definition set_polls (x : nat) (s : state) : state :=
  State (fs s) (out s) (config s) (lock s) (queue s) (running s) (mpc s) (ppc s) (locals s) (iter s) x (released s) (pushed s) (popped s) (update s) (published s) (observed s).
Definition set_released (x : bool) (s : state) : state :=
  State (fs s) (out s) (config s) (lock s) (queue s) (running s) (mpc s) (ppc s) (locals s) (iter s) (polls s) x (pushed s) (popped s) (update s) (published s) (observed s).
Definition set_pushed (x : list frame) (s : state) : state :=
  State (fs s) (out s) (config s) (lock s) (queue s) (running s) (mpc s) (ppc s) (locals s) (iter s) (polls s) (released s) x (popped s) (update s) (published s) (observed s).
Definition set_popped (x : list frame) (s : state) : state :=
  State (fs s) (out s) (config s) (lock s) (queue s) (running s) (mpc s) (ppc s) (locals s) (iter s) (polls s) (released s) (pushed s) x (update s) (published s) (observed s).
Definition set_update (x : gmap string pyval) (s : state) : state :=
  State (fs s) (out s) (config s) (lock s) (queue s) (running s) (mpc s) (ppc s) (locals s) (iter s) (polls s) (released s) (pushed s) (popped s) x (published s) (observed s).
Definition set_published (x : list (gmap string pyval)) (s : state) : state :=
  State (fs s) (out s) (config s) (lock s) (queue s) (running s) (mpc s) (ppc s) (locals s) (iter s) (polls s) (released s) (pushed s) (popped s) (update s) x (observed s).
Definition set_observed (x : list (gmap string pyval)) (s : state) : state :=
  State (fs s) (out s) (config s) (lock s) (queue s) (running s) (mpc s) (ppc s) (locals s) (iter s) (polls s) (released s) (pushed s) (popped s) (update s) (published s) x.

Variable p : program.
Variable w : world.

(** The state [main] starts in. [running] is the value [__init__] gives the
    flag; nothing reads it before the thread object exists. *)
Definition boot : state :=
  State (disk w) [] VNone None [] true MLoad PUnborn ∅ 0%nat 0%nat false
        [] [] ∅ [] [].

(** [config[slider_key]] is evaluated for every trackbar created. *)
Fixpoint setup_reads (config : pyval) (l : list slider) : result unit :=
  match l with
  | [] => Ok tt
  | sl :: l' => _ ← py_getitem config (slider_key sl); setup_reads config l'
  end.

(** [ord('q')] *)
Definition ord_q : Z := 113.

(** One statement of [main]. A statement that blocks leaves the state as
    it is. *)
Definition step_main (s : state) : state :=
  match mpc s with
  | MLoad =>
      let '(c, l) := load_config p (fs s) in
      set_mpc MIsOpened (set_out (out s ++ l) (set_config c s))
  | MIsOpened =>
      if camera_opens w then set_mpc MSetup s
      else set_mpc MReturned (set_out (out s ++ [CameraNotOpened]) s)
  | MSetup =>
      match setup_reads (config s) (sliders p) with
      | Raise e => set_mpc (MRaised e) s
      | Ok _ =>
          match setup_error w with
          | Some e => set_mpc (MRaised e) s
          | None => set_mpc MStart s
          end
      end
  | MStart => set_mpc MWhile (set_ppc PWhile (set_running true s))
  | MWhile => if running s then set_mpc MRead s else set_mpc MJoin s
  | MRead =>
      match camera_read w (iter s) with
      | Some f => set_mpc (MPut f) (set_iter (S (iter s)) s)
      | None =>
          set_mpc MJoin
            (set_out (out s ++ [CantReceiveFrame]) (set_iter (S (iter s)) s))
      end
  | MPut f =>
      set_mpc MAcquire (set_pushed (pushed s ++ [f]) (set_queue (queue s ++ [f]) s))
  | MAcquire =>
      match lock s with
      | None => set_mpc (MAssign 0) (set_update ∅ (set_lock (Some Main) s))
      | Some _ => s
      end
  | MAssign i =>
      match sliders p !! i with
      | Some sl =>
          let v := slider_value sl (trackbar_pos w (iter s) (slider_name sl)) in
          match py_setitem (config s) (slider_key sl) v with
          | Ok c =>
              set_mpc (MAssign (S i))
                (set_update (<[slider_key sl := v]> (update s)) (set_config c s))
          | Raise e => set_mpc (MRaised e) (set_lock None s)
          end
      | None =>
          set_mpc MWaitKey
            (set_published (published s ++ [update s]) (set_lock None s))
      end
  | MWaitKey => set_mpc MWhile s
  | MJoin =>
      match ppc s with
      | PFinished | PRaised _ => set_mpc MCameraRelease s
      | _ => s
      end
  | MCameraRelease => set_mpc MSave (set_released true s)
  | MSave =>
      let '(fs', r) := save_on_exit p (config s) (fs s) in
      match r with
      | Ok _ => set_mpc MReturned (set_fs fs' s)
      | Raise e => set_mpc (MRaised e) (set_fs fs' s)
      end
  | MReturned => s
  | MRaised _ => s
  end.

(** One statement of [FrameProcessor.run]. *)
Definition step_proc (s : state) : state :=
  match ppc s with
  | PUnborn => s
  | PWhile => if running s then set_ppc PEmpty s else set_ppc PFinished s
  | PEmpty =>
      match queue s with
      | [] => set_ppc PWhile s
      | _ :: _ => set_ppc PGet s
      end
  | PGet =>
      match queue s with
      | f :: q => set_ppc PAcquire (set_popped (popped s ++ [f]) (set_queue q s))
      | [] => s
      end
  | PAcquire =>
      match lock s with
      | None => set_ppc (PLookup 0) (set_lock (Some Processor) s)
      | Some _ => s
      end
  | PLookup i =>
      match lookups p !! i with
      | Some k =>
          match py_getitem (config s) k with
          | Ok v => set_ppc (PLookup (S i)) (set_locals (<[k := v]> (locals s)) s)
          | Raise e => set_ppc (PRaised e) (set_lock None s)
          end
      | None =>
          set_ppc PDetect
            (set_observed (observed s ++ [locals s]) (set_lock None s))
      end
  | PDetect => set_ppc PWaitKey s
  | PWaitKey =>
      let k := key_pressed w (polls s) in
      if Z.land k 255 =? ord_q
      then set_ppc PFinished (set_running false (set_polls (S (polls s)) s))
      else set_ppc PWhile (set_polls (S (polls s)) s)
  | PFinished => s
  | PRaised _ => s
  end.

Definition step (t : thread) (s : state) : state :=
  match t with
  | Main => step_main s
  | Processor => step_proc s
  end.

(** The state after the threads took their steps in the order of [sched]. *)
Definition run (sched : list thread) (s : state) : state :=
  fold_left (fun s t => step t s) sched s.

Definition exec (sched : list thread) : state := run sched boot.

End Pipeline.

Arguments world : clear implicits.
Arguments state : clear implicits.
Arguments main_pc : clear implicits.

(** * Properties *)

(** ** Schedules and invariants *)

Definition mains (sched : list thread) : nat := count_occ thread_eq_dec sched Main.

Section Runs.

Context {frame : Type} (p : program) (w : world frame).

Lemma run_app (a b : list thread) (s : state frame) :
  run p w (a ++ b) s = run p w b (run p w a s).
Proof. unfold run. apply fold_left_app. Qed.

Lemma run_snoc (a : list thread) (t : thread) (s : state frame) :
  run p w (a ++ [t]) s = step p w t (run p w a s).
Proof. rewrite run_app. reflexivity. Qed.

(** A property of the start state that every statement preserves holds
    after every schedule. *)
Lemma run_invariant (P : state frame -> Prop) :
  (forall t s, P s -> P (step p w t s)) ->
  forall sched s, P s -> P (run p w sched s).
Proof.
  intros Hstep sched. induction sched as [|t sched IH]; intros s Hs.
  - exact Hs.
  - simpl. apply IH, Hstep, Hs.
Qed.

(** The same with the schedule in view. *)
Lemma run_invariant_sched (P : list thread -> state frame -> Prop) (s0 : state frame) :
  P [] s0 ->
  (forall sched t s, P sched s -> P (sched ++ [t]) (step p w t s)) ->
  forall sched, P sched (run p w sched s0).
Proof.
  intros H0 Hstep sched. induction sched as [|t sched IH] using rev_ind.
  - exact H0.
  - rewrite run_snoc. apply Hstep, IH.
Qed.

Lemma mains_snoc (sched : list thread) (t : thread) :
  mains (sched ++ [t]) = (mains sched + if decide (t = Main) then 1 else 0)%nat.
Proof.
  unfold mains. rewrite count_occ_app. simpl.
  destruct (thread_eq_dec t Main), (decide (t = Main)); congruence.
Qed.

End Runs.

(** Case analysis on the statement a thread executes. *)
Ltac step_cases :=
  match goal with
  | |- context [step _ _ ?t ?s] =>
      destruct t; cbn [step]; [unfold step_main | unfold step_proc];
      repeat case_match; simpl;
      repeat match goal with
             | E : ?f ?x = _ |- context [?f ?x] => is_var x; rewrite !E
             end
  end.

(** ** The hand-off queue *)

Section Queue.

Context {frame : Type} (p : program) (w : world frame).

Lemma queue_history_step (t : thread) (s : state frame) :
  pushed s = popped s ++ queue s ->
  pushed (step p w t s) = popped (step p w t s) ++ queue (step p w t s).
Proof.
  step_cases; intros Hist; rewrite ?Hist, <- ?app_assoc; reflexivity.
Qed.

End Queue.


(** ** Startup with a camera that does not open *)

Section CameraFailure.

Context {frame : Type} (p : program) (w : world frame).
Hypothesis closed : camera_opens w = false.

Definition early_return (sched : list thread) (s : state frame) : Prop :=
  ppc s = PUnborn /\ fs s = disk w /\ released s = false /\
  ((mains sched = 0%nat /\ mpc s = MLoad) \/
   (mains sched = 1%nat /\ mpc s = MIsOpened) \/
   ((2 <= mains sched)%nat /\ mpc s = MReturned /\
    last (out s) = Some CameraNotOpened)).

Lemma early_return_step (sched : list thread) (t : thread) (s : state frame) :
  early_return sched s -> early_return (sched ++ [t]) (step p w t s).
Proof.
  unfold early_return. rewrite mains_snoc.
  intros (Hp & Hfs & Hrel & Hpc). destruct t; cbn [step].
  - rewrite decide_True by reflexivity. unfold step_main.
    destruct Hpc as [[Hn Hpc]|[[Hn Hpc]|(Hn & Hpc & Hout)]]; rewrite Hpc.
    + destruct (load_config p (fs s)) as [c l]. simpl.
      repeat split; try assumption. right; left. split; [lia|reflexivity].
    + rewrite closed. simpl. repeat split; try assumption.
      right; right. split; [lia|]. split; [reflexivity|]. apply last_snoc.
    + repeat split; try assumption. right; right. auto with lia.
  - rewrite decide_False by discriminate. unfold step_proc. rewrite Hp.
    rewrite Nat.add_0_r. repeat split; assumption.
Qed.

Lemma early_return_exec (sched : list thread) :
  early_return sched (exec p w sched).
Proof.
  unfold exec. apply run_invariant_sched.
  - unfold early_return. simpl. repeat split. left. split; reflexivity.
  - apply early_return_step.
Qed.

End CameraFailure.

(** C10. In both programs, when the camera fails to open ([camera.isOpened()]
    is false), then whatever the schedule: the [FrameProcessor] thread is
    never created or started, [camera.release()] is never reached, the
    storage - and with it [config.json] - is exactly as at startup, [main] is
    never at [save_config], and as soon as the main thread has taken its two
    statements [main] has returned with the error message as the last line
    printed. *)
Theorem camera_failure_leaves_config_untouched :
  forall (frame : Type) (p : program) (w : world frame) (sched : list thread),
    camera_opens w = false ->
    let s := exec p w sched in
    ppc s = PUnborn /\
    fs s = disk w /\
    released s = false /\
    (mpc s = MLoad \/ mpc s = MIsOpened \/ mpc s = MReturned) /\
    ((2 <= mains sched)%nat ->
     mpc s = MReturned /\ last (out s) = Some CameraNotOpened).
Proof.
  intros frame p w sched closed s.
  destruct (early_return_exec p w closed sched) as (Hp & Hfs & Hrel & Hpc).
  fold s in Hp, Hfs, Hrel, Hpc.
  repeat split; try assumption.
  - destruct Hpc as [[_ E]|[[_ E]|(_ & E & _)]]; auto.
  - destruct Hpc as [[Hn _]|[[Hn _]|(_ & E & _)]]; [lia|lia|assumption].
  - destruct Hpc as [[Hn _]|[[Hn _]|(_ & _ & E)]]; [lia|lia|assumption].
Qed.

Definition no_camera : world nat :=
  World (FileSys Absent Healthy) false None (fun _ => None) (fun _ _ => 0) (fun _ => -1).

Lemma camera_failure_witness :
  camera_opens no_camera = false /\
  ppc (exec BaseMain.prog no_camera [Main; Processor; Main; Main]) = PUnborn /\
  fs (exec ExtendedMain.prog no_camera [Main; Processor; Main; Main]) = disk no_camera.
Proof.
  split; [reflexivity|]. split.
  - apply (camera_failure_leaves_config_untouched nat BaseMain.prog no_camera
             [Main; Processor; Main; Main]). reflexivity.
  - apply (camera_failure_leaves_config_untouched nat ExtendedMain.prog no_camera
             [Main; Processor; Main; Main]). reflexivity.
Defined.

(** ** The configuration store *)

(** ParameterSet ranges, read off a dict: [within lo hi v] is Python's
    [lo <= v <= hi] holding of [v]. *)
Definition within (lo hi : Z) (v : pyval) : Prop := py_between lo v hi = Ok true.

Definition at_least (lo : Z) (v : pyval) : Prop := py_le (VInt lo) v = Ok true.

Definition positive (v : pyval) : Prop :=
  match v with
  | VInt z => 0 < z
  | VFloat r => PrimFloat.ltb 0%float r = true
  | _ => False
  end.

Definition field (d : gmap string pyval) (k : string) (P : pyval -> Prop) : Prop :=
  exists v, d !! k = Some v /\ P v.

Definition base_in_range (d : gmap string pyval) : Prop :=
  field d "min_val" (within 0 255) /\ field d "max_val" (within 0 255).

Definition extended_in_range (d : gmap string pyval) : Prop :=
  field d "min_val" (within 0 255) /\ field d "max_val" (within 0 255) /\
  field d "hough_threshold" (at_least 0) /\
  field d "min_line_length" (at_least 0) /\
  field d "max_line_gap" (at_least 0) /\
  field d "rho" positive.

Section Store.

Lemma py_le_int (a b : Z) : py_le (VInt a) (VInt b) = Ok (a <=? b).
Proof. reflexivity. Qed.

Lemma py_between_int (lo hi z : Z) :
  py_between lo (VInt z) hi = Ok ((lo <=? z) && (z <=? hi)).
Proof.
  unfold py_between. rewrite py_le_int. simpl.
  destruct (lo <=? z); reflexivity.
Qed.

Lemma within_int (lo hi z : Z) : within lo hi (VInt z) <-> lo <= z <= hi.
Proof.
  unfold within. rewrite py_between_int. split.
  - intros H. injection H as H. apply andb_true_iff in H. lia.
  - intros H. f_equal. apply andb_true_iff. lia.
Qed.

Lemma at_least_int (lo z : Z) : at_least lo (VInt z) <-> lo <= z.
Proof.
  unfold at_least. rewrite py_le_int. split.
  - intros H. injection H as H. lia.
  - intros H. f_equal. lia.
Qed.

Lemma py_all_in_dict (keys : list string) (d : gmap string pyval) :
  py_all_in keys (VDict d) =
  Ok (forallb (fun k => bool_decide (is_Some (d !! k))) keys).
Proof.
  induction keys as [|k keys IH]; [reflexivity|].
  simpl. destruct (bool_decide (is_Some (d !! k))); simpl; [exact IH|reflexivity].
Qed.

(** *** Loading: the fallback to the defaults *)

Lemma base_load_absent (fs : filesys) :
  config_json fs = Absent -> Base.load_config fs = (Base.default_config, []).
Proof. intros H. unfold Base.load_config, isfile. rewrite H. reflexivity. Qed.

Lemma extended_load_absent (fs : filesys) :
  config_json fs = Absent ->
  Extended.load_config fs = (Extended.default_config, []).
Proof. intros H. unfold Extended.load_config, isfile. rewrite H. reflexivity. Qed.

Lemma base_load_unusable (fs : filesys) :
  config_json fs = Unreadable \/ config_json fs = Garbled ->
  exists e, Base.load_config fs = (Base.default_config, [ConfigReadError e]).
Proof.
  intros [H|H]; unfold Base.load_config, isfile, json_load; rewrite H;
    eexists; reflexivity.
Qed.

Lemma extended_load_unusable (fs : filesys) :
  config_json fs = Unreadable \/ config_json fs = Garbled ->
  exists e, Extended.load_config fs = (Extended.default_config, [ConfigReadError e]).
Proof.
  intros [H|H]; unfold Extended.load_config, isfile, json_load; rewrite H;
    eexists; reflexivity.
Qed.

(** [Base.load_config] never raises, and returns either the defaults or a
    file content that passed the range check whole. *)
Lemma base_load_all_or_nothing (fs : filesys) :
  fst (Base.load_config fs) = Base.default_config \/
  exists v, config_json fs = Holds v /\ Base.valid v = Ok true /\
            Base.load_config fs = (v, []).
Proof.
  unfold Base.load_config, isfile, json_load.
  destruct (config_json fs) as [| | |v]; simpl; auto.
  destruct (Base.valid v) as [[|]|e] eqn:E; simpl; auto.
  right. exists v. auto.
Qed.

Lemma base_valid_in_range (v : pyval) :
  Base.valid v = Ok true <-> exists d, v = VDict d /\ base_in_range d.
Proof.
  unfold Base.valid, base_in_range, field, within. split.
  - destruct v as [| | | | | |d]; try discriminate. simpl.
    destruct (d !! "min_val") as [a|] eqn:Ea; [|discriminate]. simpl.
    destruct (py_between 0 a 255) as [[|]|] eqn:Eb; try discriminate. simpl.
    destruct (d !! "max_val") as [b|] eqn:Ec; [|discriminate]. simpl.
    intros Hb. exists d. split; [reflexivity|]. split; eexists; eauto.
  - intros (d & -> & (a & Ha & Hwa) & (b & Hb & Hwb)). simpl.
    rewrite Ha. simpl. rewrite Hwa. simpl. rewrite Hb. simpl. exact Hwb.
Qed.

(** An integer field out of [0, 255] sends the base loader to the whole
    default set. *)
Lemma base_load_out_of_range (fs : filesys) (d : gmap string pyval) (k : string) (z : Z) :
  config_json fs = Holds (VDict d) ->
  k = "min_val" \/ k = "max_val" ->
  d !! k = Some (VInt z) ->
  ~ 0 <= z <= 255 ->
  fst (Base.load_config fs) = Base.default_config.
Proof.
  intros Hf Hk Hd Hz.
  destruct (base_load_all_or_nothing fs) as [H|(v & Hv & Hvalid & _)]; [exact H|].
  rewrite Hf in Hv. injection Hv as <-.
  apply base_valid_in_range in Hvalid as (d' & [= <-] & (a & Ha & Hwa) & (b & Hb & Hwb)).
  exfalso. apply Hz.
  destruct Hk as [->| ->]; rewrite Hd in *; simplify_eq; by apply within_int.
Qed.

(** A dict that lacks one of the six keys sends the extended loader to the
    whole default set. *)
Lemma extended_load_missing_key (fs : filesys) (d : gmap string pyval) (k : string) :
  config_json fs = Holds (VDict d) ->
  k ∈ Extended.default_items.*1 ->
  d !! k = None ->
  Extended.load_config fs = (Extended.default_config, [InvalidConfigValues]).
Proof.
  intros Hf Hk Hd. unfold Extended.load_config, isfile, json_load.
  rewrite Hf. cbn [mbind result_bind]. rewrite py_all_in_dict.
  assert (forallb (fun k => bool_decide (is_Some (d !! k)))
            (Extended.default_items.*1) = false) as ->; [|reflexivity].
  apply not_true_is_false. intros H.
  rewrite forallb_forall in H. apply list_elem_of_In in Hk.
  specialize (H k Hk). apply bool_decide_eq_true in H.
  rewrite Hd in H. by destruct H.
Qed.

End Store.

(** *** A file with a field out of range *)

(** [{"min_val": 999, "max_val": 255, "hough_threshold": 50,
      "min_line_length": 10, "max_line_gap": 5, "rho": 1.0}] *)
Definition out_of_range_fields : gmap string pyval :=
  <["min_val" := VInt 999]> (list_to_map Extended.default_items).

Definition out_of_range_config : pyval := VDict out_of_range_fields.

(** C2, on the code. [line_follower_main.load_config] checks the presence of
    the six keys and nothing else: given a file that holds all six keys with
    [min_val] at 999, it returns the file content as it is, not the defaults
    ([min_val] 0); [Line_detection.load_config], given the same file, falls
    back to its whole default set. *)
Theorem extended_load_accepts_out_of_range :
  let fs := FileSys (Holds out_of_range_config) Healthy in
  Extended.load_config fs = (out_of_range_config, []) /\
  py_getitem (fst (Extended.load_config fs)) "min_val" = Ok (VInt 999) /\
  py_getitem Extended.default_config "min_val" = Ok (VInt 0) /\
  Base.load_config fs = (Base.default_config, [InvalidConfigValues]).
Proof. vm_compute. repeat split; reflexivity. Qed.

(** The key test of the extended loader is Python's [in], which a list of the
    key names and a string containing them pass as well: such files too are
    returned instead of the defaults. *)
Lemma extended_load_accepts_non_dict :
  let names := VList (VStr <$> Extended.default_items.*1) in
  let text := VStr "min_val max_val hough_threshold min_line_length max_line_gap rho" in
  Extended.load_config (FileSys (Holds names) Healthy) = (names, []) /\
  Extended.load_config (FileSys (Holds text) Healthy) = (text, []).
Proof. vm_compute. split; reflexivity. Qed.

(** *** Saving *)

Section Saving.

Lemma json_dump_storage (config : pyval) (fs : filesys) :
  storage (fst (json_dump config fs)) = storage fs.
Proof. unfold json_dump. destruct (storage fs) eqn:E; simpl; congruence. Qed.

Lemma json_dump_raises (config : pyval) (fs : filesys) :
  storage fs <> Healthy -> snd (json_dump config fs) = Raise OSError.
Proof. unfold json_dump. destruct (storage fs); simpl; congruence. Qed.

Lemma json_dump_healthy (config : pyval) (fs : filesys) :
  storage fs = Healthy ->
  json_dump config fs = (FileSys (Holds config) Healthy, Ok tt).
Proof. unfold json_dump. intros ->. reflexivity. Qed.

(** A program whose exit save leaves the medium as it is and raises when
    the medium fails. *)
Definition save_unguarded (p : program) : Prop :=
  forall config fs,
    storage (fst (save_on_exit p config fs)) = storage fs /\
    (storage fs <> Healthy -> exists e, snd (save_on_exit p config fs) = Raise e).

Lemma base_save_unguarded : save_unguarded BaseMain.prog.
Proof.
  intros config fs. simpl. unfold BaseMain.save_on_exit.
  destruct (py_getitem config "min_val") as [a|e]; simpl; [|eauto].
  destruct (py_getitem config "max_val") as [b|e]; simpl; [|eauto].
  unfold Base.save_config. split; [apply json_dump_storage|].
  intros H. eexists. apply json_dump_raises, H.
Qed.

Lemma extended_save_unguarded : save_unguarded ExtendedMain.prog.
Proof.
  intros config fs. simpl. unfold Extended.save_config.
  split; [apply json_dump_storage|].
  intros H. eexists. apply json_dump_raises, H.
Qed.

Context {frame : Type} (p : program) (w : world frame).
Hypothesis unguarded : save_unguarded p.
Hypothesis opened : camera_opens w = true.

Lemma failing_medium_step (t : thread) (s : state frame) :
  storage (fs s) <> Healthy /\ mpc s <> MReturned ->
  storage (fs (step p w t s)) <> Healthy /\ mpc (step p w t s) <> MReturned.
Proof.
  step_cases; intros [Hm Hpc]; try (split; [assumption|discriminate]);
    try (split; assumption).
  - destruct (unguarded (config s) (fs s)) as [Hst Hr].
    destruct (Hr Hm) as [e He].
    match goal with E : save_on_exit _ _ _ = _ |- _ => rewrite E in He end.
    discriminate.
  - destruct (unguarded (config s) (fs s)) as [Hst Hr].
    match goal with E : save_on_exit _ _ _ = _ |- _ => rewrite E in Hst end.
    simpl in Hst. split; [congruence|discriminate].
Qed.

Lemma failing_medium_exec (sched : list thread) :
  storage (disk w) <> Healthy ->
  storage (fs (exec p w sched)) <> Healthy /\ mpc (exec p w sched) <> MReturned.
Proof.
  intros H. unfold exec.
  apply (run_invariant p w
           (fun s => storage (fs s) <> Healthy /\ mpc s <> MReturned)).
  - apply failing_medium_step.
  - split; [exact H|discriminate].
Qed.

End Saving.

(** A run to the final save on a medium that refuses the write: one frame is
    captured and processed, and the operator presses [q] at once. *)
Definition refusing_medium : world nat :=
  World (FileSys Absent OpenDenied) true None (fun n => Some n)
        (fun _ _ => 0) (fun _ => 113).

Definition until_quit (k : nat) : list thread :=
  replicate (10 + k) Main ++ replicate (7 + k) Processor ++ replicate 4 Main.




(** *** Save, then load *)

Section RoundTrip.

Lemma base_round_trip (a b : pyval) (fs : filesys) :
  storage fs = Healthy ->
  within 0 255 a -> within 0 255 b ->
  Base.save_config a b fs =
    (FileSys (Holds (VDict (<["min_val" := a]> (<["max_val" := b]> ∅)))) Healthy, Ok tt) /\
  Base.load_config (fst (Base.save_config a b fs)) =
    (VDict (<["min_val" := a]> (<["max_val" := b]> ∅)), []).
Proof.
  intros Hfs Ha Hb. unfold Base.save_config.
  rewrite (json_dump_healthy _ _ Hfs). split; [reflexivity|].
  unfold Base.load_config, isfile, json_load. simpl.
  set (d := <["min_val" := a]> (<["max_val" := b]> ∅) : gmap string pyval).
  assert (Base.valid (VDict d) = Ok true) as ->; [|reflexivity].
  apply base_valid_in_range. exists d. split; [reflexivity|].
  split; [exists a|exists b]; (split; [|assumption]); subst d.
  - apply lookup_insert_eq.
  - rewrite lookup_insert_ne by discriminate. apply lookup_insert_eq.
Qed.

Lemma extended_in_range_keys (d : gmap string pyval) :
  extended_in_range d ->
  forallb (fun k => bool_decide (is_Some (d !! k))) (Extended.default_items.*1) = true.
Proof.
  intros (H1 & H2 & H3 & H4 & H5 & H6). simpl.
  destruct H1 as (? & -> & _), H2 as (? & -> & _), H3 as (? & -> & _),
           H4 as (? & -> & _), H5 as (? & -> & _), H6 as (? & -> & _).
  reflexivity.
Qed.

Lemma extended_round_trip (d : gmap string pyval) (fs : filesys) :
  storage fs = Healthy ->
  extended_in_range d ->
  Extended.save_config (VDict d) fs = (FileSys (Holds (VDict d)) Healthy, Ok tt) /\
  Extended.load_config (fst (Extended.save_config (VDict d) fs)) = (VDict d, []).
Proof.
  intros Hfs Hd. unfold Extended.save_config.
  rewrite (json_dump_healthy _ _ Hfs). split; [reflexivity|].
  unfold Extended.load_config, isfile, json_load. simpl config_json.
  cbn [mbind result_bind fst]. rewrite py_all_in_dict.
  rewrite (extended_in_range_keys d Hd). reflexivity.
Qed.

End RoundTrip.


(** [{"min_val": 30, "max_val": 200, "hough_threshold": 50,
      "min_line_length": 10, "max_line_gap": 5, "rho": 1.23}] *)
Definition tuned : gmap string pyval :=
  <["min_val" := VInt 30]> (<["max_val" := VInt 200]>
    (<["rho" := VFloat 1.23%float]> (list_to_map Extended.default_items))).

Lemma tuned_in_range : extended_in_range tuned.
Proof.
  unfold extended_in_range, field.
  repeat split; eexists; (split; [vm_compute; reflexivity|vm_compute; reflexivity]).
Qed.


(** ** The published [rho] *)

Section Rho.

Lemma float_ltb_leb (x y : float) :
  PrimFloat.ltb x y = true -> PrimFloat.leb x y = true.
Proof.
  rewrite ltb_spec, leb_spec. unfold SFltb, SFleb.
  destruct (SFcompare (Prim2SF x) (Prim2SF y)) as [[]|]; congruence.
Qed.

Lemma float_above_floor_positive (x : float) :
  PrimFloat.leb 0.01%float x = true -> PrimFloat.ltb 0%float x = true.
Proof.
  rewrite ltb_spec, leb_spec.
  replace (Prim2SF 0.01%float) with (S754_finite false 5764607523034235 (-59))
    by (vm_compute; reflexivity).
  replace (Prim2SF 0%float) with (S754_zero false) by (vm_compute; reflexivity).
  unfold SFltb, SFleb.
  destruct (Prim2SF x) as [s|s| |s m e]; simpl; try discriminate.
  - destruct s; [discriminate|reflexivity].
  - destruct s; [discriminate|reflexivity].
Qed.

(** Whatever position the trackbar reports, the value assigned to
    [config["rho"]] is at least the float [0.01], hence positive. *)
Lemma rho_of_slider_floor (z : Z) :
  PrimFloat.leb 0.01%float (Extended.rho_of_slider z) = true.
Proof.
  unfold Extended.rho_of_slider.
  destruct (PrimFloat.ltb 0.01%float (float_of_Z z / 100)%float) eqn:E.
  - apply float_ltb_leb, E.
  - vm_compute. reflexivity.
Qed.

Lemma rho_of_slider_positive (z : Z) :
  positive (VFloat (Extended.rho_of_slider z)).
Proof. simpl. apply float_above_floor_positive, rho_of_slider_floor. Qed.

End Rho.

(** ** The lock and the running flag *)

Definition in_startup {frame : Type} (m : main_pc frame) : bool :=
  match m with
  | MLoad | MIsOpened | MSetup | MStart => true
  | _ => false
  end.

(** Who holds [config_lock], as the two program counters tell. *)
Definition lock_of {frame : Type} (m : main_pc frame) (q : proc_pc) : option thread :=
  match m, q with
  | MAssign _, _ => Some Main
  | _, PLookup _ => Some Processor
  | _, _ => None
  end.

Definition exclusive {frame : Type} (m : main_pc frame) (q : proc_pc) : Prop :=
  match m, q with
  | MAssign _, PLookup _ => False
  | _, _ => True
  end.

Section Discipline.

Context {frame : Type} (p : program) (w : world frame).

(** The lock is held exactly inside the two [with] blocks, never by both
    threads; the consumer exists only once [main] is past its startup; and
    the flag is false only when the consumer has finished. *)
Definition sane (s : state frame) : Prop :=
  lock s = lock_of (mpc s) (ppc s) /\
  exclusive (mpc s) (ppc s) /\
  (in_startup (mpc s) = true -> ppc s = PUnborn) /\
  (running s = false -> ppc s = PFinished).

Lemma sane_step (t : thread) (s : state frame) : sane s -> sane (step p w t s).
Proof.
  unfold sane. intros (Hl & Hx & Hs & Hr).
  step_cases; simpl in *;
    destruct (ppc s) eqn:Eq; try discriminate;
    destruct (mpc s) eqn:Em; try discriminate;
    simpl in *; try contradiction;
    repeat match goal with
           | H : ?x = ?x -> _ |- _ => specialize (H eq_refl)
           end;
    try discriminate; try congruence;
    repeat split; intros; try discriminate; try congruence; auto;
    try solve [intuition congruence].
Qed.

Lemma sane_exec (sched : list thread) : sane (exec p w sched).
Proof.
  unfold exec. apply run_invariant.
  - apply sane_step.
  - unfold sane. simpl. repeat split; auto; discriminate.
Qed.

End Discipline.

(** ** A camera whose first read fails *)

Section StreamEnd.

Context {frame : Type} (p : program) (w : world frame).
Hypothesis opened : camera_opens w = true.
Hypothesis ended : camera_read w 0 = None.

(** [main] got no further than [join()], and the consumer spins on the
    empty queue with the flag still true. *)
Definition stalled (s : state frame) : Prop :=
  running s = true /\ queue s = [] /\ released s = false /\ fs s = disk w /\
  (ppc s = PUnborn \/ ppc s = PWhile \/ ppc s = PEmpty) /\
  match mpc s with
  | MLoad | MIsOpened | MSetup | MStart | MWhile | MRead => iter s = 0%nat
  | MJoin | MRaised _ => True
  | _ => False
  end.

Lemma stalled_step (t : thread) (s : state frame) :
  stalled s -> stalled (step p w t s).
Proof.
  unfold stalled. intros (Hr & Hq & Hrel & Hfs & Hp & Hm).
  destruct t; cbn [step].
  - unfold step_main. destruct (mpc s) eqn:Em; try contradiction.
    + destruct (load_config p (fs s)). simpl. auto 10.
    + rewrite opened. simpl. auto 10.
    + destruct (setup_reads _ _); [destruct (setup_error w)|]; simpl; auto 10.
    + simpl. auto 10.
    + rewrite Hr. simpl. auto 10.
    + rewrite Hm, ended. simpl. auto 10.
    + destruct Hp as [Hp|[Hp|Hp]]; rewrite Hp; rewrite Em; auto 10.
    + rewrite Em. auto 10.
  - unfold step_proc. destruct Hp as [Hp|[Hp|Hp]]; rewrite Hp.
    + auto 10.
    + rewrite Hr. simpl. auto 10.
    + rewrite Hq. simpl. auto 10.
Qed.

Lemma stalled_exec (sched : list thread) : stalled (exec p w sched).
Proof.
  unfold exec. apply run_invariant.
  - apply stalled_step.
  - unfold stalled. simpl. auto 10.
Qed.

End StreamEnd.

(** No statement of [main] clears the flag. *)
Lemma main_keeps_running {frame : Type} (p : program) (w : world frame) (s : state frame) :
  running s = true -> running (step p w Main s) = true.
Proof.
  intros H. cbn [step]. unfold step_main.
  repeat case_match; simpl; congruence.
Qed.

(** C1, on the code. In both programs, when the camera opens and its first
    [read()] fails, [main] prints the message and leaves its loop - and that
    is all: no statement of [main] ever clears [frame_processor.running], so
    under every schedule the flag stays true, the consumer keeps polling the
    empty queue, and [main] never gets past [join()]: the camera is not
    released, [save_config] is not reached, [main] does not return. *)
Theorem read_failure_never_completes_shutdown :
  forall (frame : Type) (p : program) (w : world frame) (sched : list thread),
    camera_opens w = true ->
    camera_read w 0 = None ->
    let s := exec p w sched in
    running s = true /\
    (ppc s = PUnborn \/ ppc s = PWhile \/ ppc s = PEmpty) /\
    released s = false /\
    fs s = disk w /\
    mpc s <> MCameraRelease /\ mpc s <> MSave /\ mpc s <> MReturned /\
    (forall s1 : state frame, running s1 = true -> running (step p w Main s1) = true).
Proof.
  intros frame p w sched Ho He s.
  destruct (stalled_exec p w Ho He sched) as (Hr & Hq & Hrel & Hfs & Hp & Hm).
  fold s in Hr, Hq, Hrel, Hfs, Hp, Hm.
  repeat split; try assumption;
    try (intros E; rewrite E in Hm; exact Hm).
  exact (main_keeps_running p w).
Qed.

(** The camera opens and the stream ends at once; no key is ever pressed. *)
Definition stream_end : world nat :=
  World (FileSys Absent Healthy) true None (fun _ => None) (fun _ _ => 0) (fun _ => -1).

Definition long_wait : list thread :=
  replicate 6 Main ++ replicate 40 Processor ++ replicate 40 Main ++ replicate 40 Processor.

Lemma read_failure_witness :
  camera_opens stream_end = true /\
  camera_read stream_end 0 = None /\
  mpc (exec BaseMain.prog stream_end long_wait) = MJoin /\
  out (exec BaseMain.prog stream_end long_wait) = [CantReceiveFrame] /\
  running (exec BaseMain.prog stream_end long_wait) = true /\
  mpc (exec ExtendedMain.prog stream_end long_wait) = MJoin /\
  out (exec ExtendedMain.prog stream_end long_wait) = [CantReceiveFrame] /\
  running (exec ExtendedMain.prog stream_end long_wait) = true.
Proof.
  pose proof (read_failure_never_completes_shutdown nat BaseMain.prog stream_end
                long_wait eq_refl eq_refl) as [Hb _].
  pose proof (read_failure_never_completes_shutdown nat ExtendedMain.prog stream_end
                long_wait eq_refl eq_refl) as [He _].
  split; [reflexivity|]. split; [reflexivity|].
  split; [vm_compute; reflexivity|]. split; [vm_compute; reflexivity|].
  split; [exact Hb|].
  split; [vm_compute; reflexivity|]. split; [vm_compute; reflexivity|].
  exact He.
Defined.

(** ** After the flag is cleared *)

(** [main] is out of its capture loop. *)
Definition left_loop {frame : Type} (m : main_pc frame) : Prop :=
  match m with
  | MJoin | MCameraRelease | MSave | MReturned | MRaised _ => True
  | _ => False
  end.

(** Statements [main] still has to execute before it is out of the loop once
    the flag is false, [n] being the number of trackbars. *)
Definition remaining {frame : Type} (n : nat) (m : main_pc frame) : nat :=
  match m with
  | MRead => n + 6
  | MPut _ => n + 5
  | MAcquire => n + 4
  | MAssign i => (n - i) + 3
  | MWaitKey => 2
  | MWhile => 1
  | _ => 0
  end.

(** Frames [main] may still push, and reads it may still make, before it
    tests the flag again. *)
Definition may_push {frame : Type} (m : main_pc frame) : nat :=
  match m with
  | MRead | MPut _ => 1
  | _ => 0
  end.

Definition may_read {frame : Type} (m : main_pc frame) : nat :=
  match m with
  | MRead => 1
  | _ => 0
  end.

Section Stopping.

Context {frame : Type} (p : program) (w : world frame).

(** The states that follow a state [s0] in which the flag is false. *)
Definition winding_down (s0 : state frame) (sched : list thread) (s : state frame) : Prop :=
  running s = false /\ ppc s = PFinished /\
  lock s = lock_of (mpc s) PFinished /\ in_startup (mpc s) = false /\
  popped s = popped s0 /\
  (length (pushed s) + may_push (mpc s) <= length (pushed s0) + may_push (mpc s0))%nat /\
  (iter s + may_read (mpc s) <= iter s0 + may_read (mpc s0))%nat /\
  (remaining (length (sliders p)) (mpc s) <=
     remaining (length (sliders p)) (mpc s0) - mains sched)%nat /\
  (left_loop (mpc s0) -> left_loop (mpc s) /\ pushed s = pushed s0).

Lemma winding_down_step (s0 : state frame) (sched : list thread) (t : thread)
    (s : state frame) :
  winding_down s0 sched s -> winding_down s0 (sched ++ [t]) (step p w t s).
Proof.
  unfold winding_down. rewrite mains_snoc.
  intros (Hr & Hp & Hl & Hs & Hpop & Hpush & Hit & Hrem & Hleft).
  destruct t; cbn [step].
  - rewrite decide_True by reflexivity. unfold step_main.
    destruct (mpc s) eqn:Em; simpl in *; try discriminate.
    + rewrite Hr. simpl. repeat split; auto; try lia; tauto.
    + destruct (camera_read w (iter s)); simpl; repeat split; auto; try lia; tauto.
    + rewrite length_app. simpl. repeat split; auto; try lia; tauto.
    + rewrite Hl. simpl. repeat split; auto; try lia; tauto.
    + destruct (sliders p !! i) as [sl|] eqn:Ei.
      * apply lookup_lt_Some in Ei.
        destruct (py_setitem _ _ _); simpl; repeat split; auto; try lia; tauto.
      * simpl. repeat split; auto; try lia; tauto.
    + repeat split; auto; try lia; tauto.
    + rewrite Hp. simpl. repeat split; auto; try lia; tauto.
    + repeat split; auto; try lia; tauto.
    + destruct (save_on_exit p (config s) (fs s)) as [fs' [u|e]]; simpl;
        repeat split; auto; try lia; tauto.
    + rewrite Em. simpl. repeat split; auto; try lia; tauto.
    + rewrite Em. simpl. repeat split; auto; try lia; tauto.
  - rewrite decide_False by discriminate. unfold step_proc. rewrite Hp.
    rewrite Nat.add_0_r. repeat split; auto; tauto.
Qed.

Lemma winding_down_run (s0 : state frame) (sched : list thread) :
  sane s0 -> running s0 = false ->
  winding_down s0 sched (run p w sched s0).
Proof.
  intros (Hl & Hx & Hs & Hr) Hf. specialize (Hr Hf).
  apply run_invariant_sched.
  - unfold winding_down. rewrite Hl, Hr. simpl.
    repeat split; auto; try lia.
    + destruct (in_startup (mpc s0)); [|reflexivity].
      specialize (Hs eq_refl). congruence.
    + unfold mains. simpl. lia.
  - apply winding_down_step.
Qed.

End Stopping.

(** Both loops test the flag at their head: with the flag false, [main]
    goes on to [join()] and [run] returns. *)
Lemma loop_heads_observe_flag {frame : Type} (p : program) (w : world frame)
    (s : state frame) :
  running s = false ->
  (mpc s = MWhile -> mpc (step p w Main s) = MJoin) /\
  (ppc s = PWhile -> ppc (step p w Processor s) = PFinished).
Proof.
  intros Hf. split; intros Hpc; cbn [step]; [unfold step_main|unfold step_proc];
    rewrite Hpc, Hf; reflexivity.
Qed.

(** C8. In both programs the flag is cleared by the consumer only, on the
    quit key, as its last statement. From any reachable state in which
    [frame_processor.running] is false, and under every continuation: the
    consumer has finished and pops nothing more; [main] makes at most one
    more [camera.read()] and pushes at most one more frame (it completes the
    iteration it is in); it is out of its loop once it has executed
    [length sliders + 6] statements, the length of one iteration; and once
    it is out of the loop nothing is pushed any more. Each loop tests the
    flag at its head and leaves when it is false. *)
Theorem flag_cleared_stops_both_loops :
  forall (frame : Type) (p : program) (w : world frame) (sched sched' : list thread),
    let s := exec p w sched in
    let s' := run p w sched' s in
    running s = false ->
    ppc s = PFinished /\
    ppc s' = PFinished /\
    running s' = false /\
    popped s' = popped s /\
    (length (pushed s') <= length (pushed s) + 1)%nat /\
    (iter s' <= iter s + 1)%nat /\
    ((length (sliders p) + 6 <= mains sched')%nat -> left_loop (mpc s')) /\
    (left_loop (mpc s) -> left_loop (mpc s') /\ pushed s' = pushed s) /\
    (forall s1 : state frame,
        running s1 = false ->
        (mpc s1 = MWhile -> mpc (step p w Main s1) = MJoin) /\
        (ppc s1 = PWhile -> ppc (step p w Processor s1) = PFinished)).
Proof.
  intros frame p w sched sched' s s' Hf.
  pose proof (sane_exec p w sched) as Hsane. fold s in Hsane.
  destruct (winding_down_run p w s sched' Hsane Hf)
    as (Hr & Hp & Hl & Hs & Hpop & Hpush & Hit & Hrem & Hleft).
  fold s' in Hr, Hp, Hl, Hs, Hpop, Hpush, Hit, Hrem, Hleft.
  destruct Hsane as (_ & _ & _ & Hfin).
  split; [auto|]. split; [exact Hp|]. split; [exact Hr|]. split; [exact Hpop|].
  split; [destruct (mpc s), (mpc s'); simpl in *; lia|].
  split; [destruct (mpc s), (mpc s'); simpl in *; lia|].
  split.
  { intros Hn. destruct (mpc s'); simpl in *; try exact I; try discriminate;
      destruct (mpc s); simpl in *; lia. }
  split; [exact Hleft|].
  intros s1. apply loop_heads_observe_flag.
Qed.

(** One frame is captured and processed, and the operator presses [q]. *)
Definition quits : world nat :=
  World (FileSys Absent Healthy) true None (fun n => Some n)
        (fun _ _ => 7) (fun _ => 113).

Lemma flag_cleared_witness :
  running (exec BaseMain.prog quits (replicate 14 Main ++ replicate 9 Processor)) = false /\
  mpc (exec BaseMain.prog quits (replicate 14 Main ++ replicate 9 Processor)) = MPut 1%nat /\
  popped (run BaseMain.prog quits (replicate 8 Main)
            (exec BaseMain.prog quits (replicate 14 Main ++ replicate 9 Processor))) =
    popped (exec BaseMain.prog quits (replicate 14 Main ++ replicate 9 Processor)) /\
  left_loop (mpc (run BaseMain.prog quits (replicate 8 Main)
                    (exec BaseMain.prog quits (replicate 14 Main ++ replicate 9 Processor)))).
Proof.
  assert (running (exec BaseMain.prog quits (replicate 14 Main ++ replicate 9 Processor))
          = false) as Hf by (vm_compute; reflexivity).
  pose proof (flag_cleared_stops_both_loops nat BaseMain.prog quits
                (replicate 14 Main ++ replicate 9 Processor) (replicate 8 Main) Hf)
    as (_ & _ & _ & Hpop & _ & _ & Hleft & _).
  split; [exact Hf|]. split; [vm_compute; reflexivity|].
  split; [exact Hpop|].
  apply Hleft. vm_compute. lia.
Defined.

(** ** What the consumer reads under the lock *)

(** Two sets of values that coincide on the given fields. *)
Definition agree (keys : list string) (m1 m2 : gmap string pyval) : Prop :=
  forall k, k ∈ keys -> m1 !! k = m2 !! k.

(** The trackbars are there, assign distinct keys, and every key the consumer
    reads is assigned by one of them. *)
Definition well_formed (p : program) : Prop :=
  sliders p <> [] /\
  NoDup (slider_key <$> sliders p) /\
  forall k, k ∈ lookups p -> k ∈ slider_key <$> sliders p.

Lemma base_well_formed : well_formed BaseMain.prog.
Proof.
  split; [discriminate|]. split.
  - apply (bool_decide_unpack _). vm_compute. exact I.
  - intros k Hk. apply (bool_decide_unpack _).
    repeat (apply elem_of_cons in Hk as [->|Hk]; [vm_compute; exact I|]).
    apply elem_of_nil in Hk. destruct Hk.
Qed.

Lemma extended_well_formed : well_formed ExtendedMain.prog.
Proof.
  split; [discriminate|]. split.
  - apply (bool_decide_unpack _). vm_compute. exact I.
  - intros k Hk. apply (bool_decide_unpack _).
    repeat (apply elem_of_cons in Hk as [->|Hk]; [vm_compute; exact I|]).
    apply elem_of_nil in Hk. destruct Hk.
Qed.

Lemma setup_reads_dict (config : pyval) (l : list slider) :
  l <> [] -> setup_reads config l = Ok tt -> exists c, config = VDict c.
Proof.
  destruct l as [|sl l]; [congruence|]. intros _. simpl.
  destruct config; try discriminate. eauto.
Qed.

Section Snapshots.

Context {frame : Type} (p : program) (w : world frame).
Hypothesis wf : well_formed p.

(** The ParameterSet [main] starts from. *)
Definition startup_config : pyval := fst (load_config p (disk w)).

(** A complete set of values: the startup set, or the assignments of one
    completed critical section of [main]. *)
Definition source (pub : list (gmap string pyval)) (d : gmap string pyval) : Prop :=
  startup_config = VDict d \/ d ∈ pub.

(** Outside the critical section of [main], the shared dict carries one
    complete set on the fields the consumer reads, and what the consumer has
    read so far in its own critical section comes from that set. *)
Definition settled (pub : list (gmap string pyval)) (c : gmap string pyval)
    (q : proc_pc) (loc : gmap string pyval) : Prop :=
  exists d, source pub d /\ agree (lookups p) c d /\
            forall i, q = PLookup i -> agree (take i (lookups p)) loc d.

(** Inside the critical section of [main], the assignments made so far are
    what the shared dict holds under their keys. *)
Definition assigned (i : nat) (upd c : gmap string pyval) : Prop :=
  forall sl, sl ∈ take i (sliders p) -> upd !! slider_key sl = c !! slider_key sl.

Definition consistent (s : state frame) : Prop :=
  match mpc s with
  | MLoad => fs s = disk w /\ observed s = []
  | MIsOpened | MSetup => config s = startup_config /\ observed s = []
  | MStart => config s = startup_config /\ observed s = [] /\
              exists c, config s = VDict c
  | _ => True
  end /\
  (ppc s <> PUnborn ->
   exists c, config s = VDict c /\
             match mpc s with
             | MAssign i => assigned i (update s) c
             | _ => settled (published s) c (ppc s) (locals s)
             end) /\
  (forall snap, snap ∈ observed s ->
                exists d, source (published s) d /\ agree (lookups p) snap d).

Lemma source_grows (pub : list (gmap string pyval)) (u d : gmap string pyval) :
  source pub d -> source (pub ++ [u]) d.
Proof. intros [H|H]; [left|right]; [assumption|]. apply elem_of_app. auto. Qed.

Lemma settled_elsewhere (pub : list (gmap string pyval)) (c : gmap string pyval)
    (q q' : proc_pc) (loc : gmap string pyval) :
  (forall i, q' <> PLookup i) -> settled pub c q loc -> settled pub c q' loc.
Proof.
  intros Hq (d & Hd & Hc & _). exists d. repeat split; auto.
  intros i E. destruct (Hq i E).
Qed.

Lemma assigned_next (i : nat) (sl : slider) (v : pyval) (upd c : gmap string pyval) :
  sliders p !! i = Some sl ->
  assigned i upd c ->
  assigned (S i) (<[slider_key sl := v]> upd) (<[slider_key sl := v]> c).
Proof.
  intros Hi H sl' Hsl'. rewrite (take_S_r _ _ _ Hi) in Hsl'.
  destruct (decide (slider_key sl = slider_key sl')) as [E|E].
  - rewrite E, !lookup_insert_eq. reflexivity.
  - rewrite !lookup_insert_ne by exact E.
    apply elem_of_app in Hsl' as [Hsl'|Hsl']; [apply H, Hsl'|].
    apply list_elem_of_singleton in Hsl'. subst. congruence.
Qed.

Lemma assigned_all (i : nat) (upd c : gmap string pyval) :
  sliders p !! i = None -> assigned i upd c -> agree (lookups p) c upd.
Proof.
  intros Hi H k Hk. destruct wf as (_ & _ & Hcov).
  apply Hcov, list_elem_of_fmap in Hk as (sl & -> & Hsl).
  symmetry. apply H. rewrite take_ge; [exact Hsl|].
  apply lookup_ge_None, Hi.
Qed.

Lemma consistent_main (s : state frame) :
  sane s -> consistent s -> consistent (step_main p w s).
Proof.
  intros (Hl & Hx & Hs & _) (HA & HB & HC). unfold consistent, step_main.
  destruct (mpc s) eqn:Em; simpl in *.
  - (* MLoad *)
    destruct HA as [Hfs Hobs]. specialize (Hs eq_refl).
    destruct (load_config p (fs s)) as [c l] eqn:El. simpl.
    repeat split; auto.
    + unfold startup_config. rewrite <- Hfs, El. reflexivity.
    + intros H. contradiction.
  - (* MIsOpened *)
    specialize (Hs eq_refl).
    destruct (camera_opens w); simpl; repeat split; tauto.
  - (* MSetup *)
    specialize (Hs eq_refl). destruct HA as [Hc Hobs].
    destruct (setup_reads (config s) (sliders p)) as [[]|e] eqn:Er;
      [destruct (setup_error w)|]; simpl; repeat split; auto; try tauto.
    destruct wf as (Hne & _). apply (setup_reads_dict _ _ Hne Er).
  - (* MStart *)
    destruct HA as (Hc & Hobs & c & Ec). simpl. repeat split.
    + intros _. exists c. split; [exact Ec|]. exists c. repeat split.
      * left. congruence.
      * discriminate.
    + rewrite Hobs. intros snap H. apply elem_of_nil in H. destruct H.
  - (* MWhile *)
    destruct (running s); simpl; repeat split; auto.
  - (* MRead *)
    destruct (camera_read w (iter s)); simpl; repeat split; auto.
  - (* MPut *)
    repeat split; auto.
  - (* MAcquire *)
    destruct (lock s) eqn:Elock; simpl; rewrite ?Em; repeat split; auto.
    intros Hp. destruct (HB Hp) as (c & Ec & _). exists c. split; [exact Ec|].
    intros sl H. apply elem_of_nil in H. destruct H.
  - (* MAssign *)
    destruct (sliders p !! i) as [sl|] eqn:Ei.
    + destruct (py_setitem (config s) (slider_key sl) _) as [c'|e] eqn:Eset; simpl.
      * repeat split; auto. intros Hp. destruct (HB Hp) as (c & Ec & Hass).
        rewrite Ec in Eset. injection Eset as <-.
        eexists. split; [reflexivity|]. apply assigned_next; assumption.
      * repeat split; auto. intros Hp. destruct (HB Hp) as (c & Ec & _).
        rewrite Ec in Eset. discriminate.
    + simpl. repeat split.
      * intros Hp. destruct (HB Hp) as (c & Ec & Hass).
        exists c. split; [exact Ec|]. exists (update s). repeat split.
        -- right. apply elem_of_app. right. apply list_elem_of_singleton. reflexivity.
        -- apply (assigned_all i); assumption.
        -- intros j Ej. rewrite Ej in Hx. destruct Hx.
      * intros snap H. destruct (HC snap H) as (d & Hd & Hag).
        exists d. split; [apply source_grows, Hd|exact Hag].
  - (* MWaitKey *)
    repeat split; auto.
  - (* MJoin *)
    destruct (ppc s) eqn:Ep; simpl; rewrite ?Em, ?Ep; repeat split; auto.
  - (* MCameraRelease *)
    repeat split; auto.
  - (* MSave *)
    destruct (save_on_exit p (config s) (fs s)) as [fs' [u|e]]; simpl;
      repeat split; auto.
  - (* MReturned *)
    rewrite Em. repeat split; auto.
  - (* MRaised *)
    rewrite Em. repeat split; auto.
Qed.

Lemma consistent_proc (s : state frame) :
  sane s -> consistent s -> consistent (step_proc p w s).
Proof.
  intros (Hl & Hx & Hs & _) (HA & HB & HC). unfold consistent, step_proc.
  assert (forall q, (forall i, q <> PLookup i) ->
            ppc s <> PUnborn ->
            exists c, config s = VDict c /\
              match mpc s with
              | MAssign i => assigned i (update s) c
              | _ => settled (published s) c q (locals s)
              end) as Hmove.
  { intros q Hq Hp. destruct (HB Hp) as (c & Ec & H). exists c. split; [exact Ec|].
    destruct (mpc s); try exact H; apply (settled_elsewhere _ _ (ppc s)); assumption. }
  destruct (ppc s) eqn:Ep; simpl in *.
  - (* PUnborn *)
    rewrite Ep. repeat split; auto.
  - (* PWhile *)
    destruct (running s); simpl; repeat split; auto.
  - (* PEmpty *)
    destruct (queue s); simpl; repeat split; auto.
  - (* PGet *)
    destruct (queue s); simpl; rewrite ?Ep; repeat split; auto.
  - (* PAcquire *)
    destruct (lock s) eqn:Elock; simpl; rewrite ?Ep; repeat split; auto.
    intros _. destruct HB as (c & Ec & H); [discriminate|].
    exists c. split; [exact Ec|].
    destruct (mpc s); try discriminate;
      destruct H as (d & Hd & Hc & _); exists d; repeat split; auto;
      intros j [= <-] k Hk; apply elem_of_nil in Hk; destruct Hk.
  - (* PLookup *)
    destruct HB as (c & Ec & H); [discriminate|].
    assert (settled (published s) c (PLookup i) (locals s)) as (d & Hd & Hc & Hloc).
    { destruct (mpc s); try exact H. destruct Hx. }
    specialize (Hloc i eq_refl).
    destruct (lookups p !! i) as [k|] eqn:Ei.
    + rewrite Ec. simpl. destruct (c !! k) as [v|] eqn:Ek; simpl.
      * repeat split; auto. intros _. exists c. split; [exact Ec|].
        assert (settled (published s) c (PLookup (S i)) (<[k := v]> (locals s))).
        { exists d. repeat split; auto. intros j [= <-] k' Hk'.
          rewrite (take_S_r _ _ _ Ei) in Hk'.
          destruct (decide (k = k')) as [<-|Ne].
          - rewrite lookup_insert_eq, <- Ek. apply Hc.
            apply list_elem_of_lookup_2 in Ei. exact Ei.
          - rewrite lookup_insert_ne by exact Ne.
            apply elem_of_app in Hk' as [Hk'|Hk']; [apply Hloc, Hk'|].
            apply list_elem_of_singleton in Hk'. congruence. }
        destruct (mpc s); first [assumption|destruct Hx].
      * repeat split; auto.
    + simpl. rewrite take_ge in Hloc by (apply lookup_ge_None, Ei).
      repeat split; auto.
      * destruct (mpc s); simpl in Hs; try exact I; discriminate (Hs eq_refl).
      * intros snap Hsnap. apply elem_of_app in Hsnap as [Hsnap|Hsnap]; [auto|].
        apply list_elem_of_singleton in Hsnap. subst snap. exists d. auto.
  - (* PDetect *)
    repeat split; auto.
  - (* PWaitKey *)
    destruct (Z.land _ _ =? ord_q); simpl; repeat split; auto.
  - (* PFinished *)
    rewrite Ep. repeat split; auto.
  - (* PRaised *)
    rewrite Ep. repeat split; auto.
Qed.

Lemma consistent_exec (sched : list thread) :
  sane (exec p w sched) /\ consistent (exec p w sched).
Proof.
  unfold exec. apply (run_invariant p w (fun s => sane s /\ consistent s)).
  - intros t s [Hs Hc]. split; [apply sane_step, Hs|].
    destruct t; [apply consistent_main|apply consistent_proc]; assumption.
  - split.
    + unfold sane. simpl. repeat split; auto; discriminate.
    + unfold consistent. simpl. repeat split; auto.
      * intros H. contradiction.
      * intros snap H. apply elem_of_nil in H. destruct H.
Qed.

(** Every snapshot the consumer completes coincides, on the fields it reads,
    with one complete set. *)
Lemma snapshots_are_whole (sched : list thread) (snap : gmap string pyval) :
  snap ∈ observed (exec p w sched) ->
  exists d, source (published (exec p w sched)) d /\ agree (lookups p) snap d.
Proof.
  destruct (consistent_exec sched) as (_ & _ & _ & H). apply H.
Qed.

End Snapshots.

(** ** What the producer publishes *)

Section Published.

Context {frame : Type} (p : program) (w : world frame).
Hypothesis wf : well_formed p.

(** The value an assignment stores when the trackbars are read in the
    [n]-th capture iteration: the position as reported, passed through the
    slider's conversion and nothing else. *)
Definition slider_reading (n : nat) (sl : slider) : pyval :=
  slider_value sl (trackbar_pos w n (slider_name sl)).

Definition reading (n : nat) (u : gmap string pyval) : Prop :=
  forall sl, sl ∈ sliders p -> u !! slider_key sl = Some (slider_reading n sl).

Definition faithful (s : state frame) : Prop :=
  match mpc s with
  | MAssign i =>
      forall sl, sl ∈ take i (sliders p) ->
                 update s !! slider_key sl = Some (slider_reading (iter s) sl)
  | _ => True
  end /\
  forall u, u ∈ published s -> exists n, reading n u.

Lemma earlier_key_differs (i : nat) (sl sl' : slider) :
  sliders p !! i = Some sl -> sl' ∈ take i (sliders p) ->
  slider_key sl <> slider_key sl'.
Proof.
  intros Hi Hin E. destruct wf as (_ & Hnd & _).
  apply elem_of_take in Hin as (j & Hj & Hlt).
  assert (j = i); [|lia].
  apply (NoDup_lookup _ j i (slider_key sl) Hnd); rewrite list_lookup_fmap.
  - rewrite Hj. simpl. congruence.
  - rewrite Hi. reflexivity.
Qed.

Lemma faithful_step (t : thread) (s : state frame) :
  faithful s -> faithful (step p w t s).
Proof.
  unfold faithful. intros [Hu Hp]. destruct t; cbn [step].
  - unfold step_main. destruct (mpc s) eqn:Em; simpl in *; auto.
    + destruct (load_config p (fs s)); simpl; auto.
    + destruct (camera_opens w); simpl; auto.
    + destruct (setup_reads _ _); [destruct (setup_error w)|]; simpl; auto.
    + destruct (running s); simpl; auto.
    + destruct (camera_read w (iter s)); simpl; auto.
    + destruct (lock s); simpl; rewrite ?Em; auto. split; [|exact Hp].
      intros sl H. apply elem_of_nil in H. destruct H.
    + destruct (sliders p !! i) as [sl|] eqn:Ei.
      * destruct (py_setitem _ _ _); simpl; auto. split; [|exact Hp].
        intros sl' Hsl'. rewrite (take_S_r _ _ _ Ei) in Hsl'.
        apply elem_of_app in Hsl' as [Hsl'|Hsl'].
        -- rewrite lookup_insert_ne by (apply (earlier_key_differs i); assumption).
           apply Hu, Hsl'.
        -- apply list_elem_of_singleton in Hsl'. subst sl'.
           apply lookup_insert_eq.
      * simpl. split; [exact I|]. intros u Hin.
        apply elem_of_app in Hin as [Hin|Hin]; [auto|].
        apply list_elem_of_singleton in Hin. subst u. exists (iter s).
        intros sl Hsl. apply Hu. rewrite take_ge; [exact Hsl|].
        apply lookup_ge_None, Ei.
    + destruct (ppc s); simpl; rewrite ?Em; auto.
    + destruct (save_on_exit p (config s) (fs s)) as [fs' [u|e]]; simpl; auto.
    + rewrite Em. auto.
    + rewrite Em. auto.
  - unfold step_proc. destruct (ppc s) eqn:Ep; simpl in *; auto.
    + destruct (running s); simpl; auto.
    + destruct (queue s); simpl; auto.
    + destruct (queue s); simpl; auto.
    + destruct (lock s); simpl; auto.
    + destruct (lookups p !! i); [destruct (py_getitem _ _)|]; simpl; auto.
    + destruct (Z.land _ _ =? ord_q); simpl; auto.
Qed.

(** Every set published by [main] is the reading of the trackbars in one
    capture iteration. *)
Lemma published_are_readings (sched : list thread) (u : gmap string pyval) :
  u ∈ published (exec p w sched) -> exists n, reading n u.
Proof.
  assert (faithful (exec p w sched)) as [_ H]; [|apply H].
  unfold exec. apply run_invariant.
  - apply faithful_step.
  - split; [exact I|]. intros u' H. apply elem_of_nil in H. destruct H.
Qed.

End Published.

(** ** Snapshots: the claims *)

(** The consumer gets to its critical section before [main] gets to its
    first: [main] runs up to and including [frame_queue.put], then the
    consumer runs through the end of its [with] block ([k] fields). *)
Definition consumer_first (k : nat) : list thread :=
  replicate 7 Main ++ replicate (5 + k) Processor.

(** C5, as stated, fails: in this run of [Line_detection.py] the consumer
    completes one snapshot - the startup values 0 and 255 - while no update
    of the producer has been published. *)
Lemma first_snapshot_precedes_every_update :
  (fun snap => (snap !! "min_val", snap !! "max_val")) <$>
    observed (exec BaseMain.prog quits (consumer_first 2)) =
    [(Some (VInt 0), Some (VInt 255))] /\
  length (published (exec BaseMain.prog quits (consumer_first 2))) = 0%nat.
Proof. split; vm_compute; reflexivity. Qed.

(** C5, amended. In both programs, under every schedule, every snapshot the
    consumer completes in its critical section coincides on all the fields
    it reads with one single complete set: either the ParameterSet [main]
    started from, or the assignments of one completed critical section of
    [main] - and each of these is the reading of all trackbars in one and
    the same capture iteration. It is never a mix of two. *)
Theorem snapshot_is_never_torn :
  forall (frame : Type) (w : world frame) (sched : list thread),
    (forall snap, snap ∈ observed (exec BaseMain.prog w sched) ->
       exists d, (fst (Base.load_config (disk w)) = VDict d \/
                  d ∈ published (exec BaseMain.prog w sched)) /\
                 forall k, k ∈ BaseMain.lookups -> snap !! k = d !! k) /\
    (forall snap, snap ∈ observed (exec ExtendedMain.prog w sched) ->
       exists d, (fst (Extended.load_config (disk w)) = VDict d \/
                  d ∈ published (exec ExtendedMain.prog w sched)) /\
                 forall k, k ∈ ExtendedMain.lookups -> snap !! k = d !! k) /\
    (forall u, u ∈ published (exec BaseMain.prog w sched) ->
       exists n, reading BaseMain.prog w n u) /\
    (forall u, u ∈ published (exec ExtendedMain.prog w sched) ->
       exists n, reading ExtendedMain.prog w n u).
Proof.
  intros frame w sched. repeat split.
  - intros snap H.
    apply (snapshots_are_whole BaseMain.prog w base_well_formed) in H. exact H.
  - intros snap H.
    apply (snapshots_are_whole ExtendedMain.prog w extended_well_formed) in H. exact H.
  - apply (published_are_readings BaseMain.prog w base_well_formed).
  - apply (published_are_readings ExtendedMain.prog w extended_well_formed).
Qed.

(** ** Ranges: the claims *)

(** Membership in a list that is written out. *)
Ltac in_list :=
  repeat (apply elem_of_cons; first [left; reflexivity | right]).

(** Where the trackbars of [line_follower_main.py] stand when nobody touches
    them after a start from the default values. *)
Definition resting (name : string) : Z :=
  if String.eqb name "max_val" then 255
  else if String.eqb name "threshold" then 50
  else if String.eqb name "min_line_length" then 10
  else if String.eqb name "max_line_gap" then 5
  else if String.eqb name "rho" then 100
  else 0.

(** [config.json] holds [min_val] 999 and is otherwise the default set; the
    [min_val] trackbar, whose range ends at 255, stands at 255. *)
Definition out_of_range_start : world nat :=
  World (FileSys (Holds out_of_range_config) Healthy) true None (fun n => Some n)
        (fun _ name => if String.eqb name "min_val" then 255 else resting name)
        (fun _ => -1).


Section Ranges.

Context {frame : Type} (w : world frame).

(** Every position reported lies within the range its trackbar was created
    with. *)
Definition positions_in_range : Prop :=
  forall n sl, sl ∈ ExtendedMain.sliders ->
               0 <= trackbar_pos w n (slider_name sl) <= slider_count sl.

Lemma base_default_in_range :
  exists d, Base.default_config = VDict d /\ base_in_range d.
Proof.
  eexists. split; [reflexivity|].
  split; eexists; (split; [vm_compute; reflexivity|]); apply within_int; lia.
Qed.

Lemma base_startup_in_range :
  exists d, fst (Base.load_config (disk w)) = VDict d /\ base_in_range d.
Proof.
  destruct (base_load_all_or_nothing (disk w)) as [E|(v & _ & Hv & E)].
  - rewrite E. apply base_default_in_range.
  - rewrite E. simpl. apply base_valid_in_range, Hv.
Qed.

Lemma base_reading_in_range (n : nat) (u : gmap string pyval) :
  positions_in_range -> reading BaseMain.prog w n u -> base_in_range u.
Proof.
  intros Hpos Hu. split.
  - exists (VInt (trackbar_pos w n "min_val")). split.
    + apply (Hu (Slider "min_val" 255 "min_val" VInt)). simpl. in_list.
    + apply within_int.
      apply (Hpos n (Slider "min_val" 255 "min_val" VInt)). simpl. in_list.
  - exists (VInt (trackbar_pos w n "max_val")). split.
    + apply (Hu (Slider "max_val" 255 "max_val" VInt)). simpl. in_list.
    + apply within_int.
      apply (Hpos n (Slider "max_val" 255 "max_val" VInt)). simpl. in_list.
Qed.

Lemma extended_reading_in_range (n : nat) (u : gmap string pyval) :
  positions_in_range -> reading ExtendedMain.prog w n u -> extended_in_range u.
Proof.
  intros Hpos Hu.
  assert (forall sl, sl ∈ ExtendedMain.sliders ->
            u !! slider_key sl = Some (slider_value sl (trackbar_pos w n (slider_name sl))) /\
            0 <= trackbar_pos w n (slider_name sl) <= slider_count sl) as H.
  { intros sl Hsl. split; [apply Hu, Hsl|apply Hpos, Hsl]. }
  unfold ExtendedMain.sliders in H.
  repeat split.
  - destruct (H (Slider "min_val" 255 "min_val" VInt)) as [E R]; [in_list|].
    eexists. split; [exact E|]. apply within_int, R.
  - destruct (H (Slider "max_val" 255 "max_val" VInt)) as [E R]; [in_list|].
    eexists. split; [exact E|]. apply within_int, R.
  - destruct (H (Slider "threshold" 255 "hough_threshold" VInt)) as [E R]; [in_list|].
    eexists. split; [exact E|]. apply at_least_int, R.
  - destruct (H (Slider "min_line_length" 100 "min_line_length" VInt)) as [E R];
      [in_list|].
    eexists. split; [exact E|]. apply at_least_int, R.
  - destruct (H (Slider "max_line_gap" 50 "max_line_gap" VInt)) as [E R]; [in_list|].
    eexists. split; [exact E|]. apply at_least_int, R.
  - destruct (H (Slider "rho" 1000 "rho" (fun z => VFloat (Extended.rho_of_slider z))))
      as [E R]; [in_list|].
    eexists. split; [exact E|]. apply rho_of_slider_positive.
Qed.

Lemma agree_base_in_range (snap d : gmap string pyval) :
  agree BaseMain.lookups snap d -> base_in_range d -> base_in_range snap.
Proof.
  intros Hag [(a & Ha & Hwa) (b & Hb & Hwb)]. split.
  - exists a. split; [|exact Hwa]. rewrite Hag; [exact Ha|]. simpl. in_list.
  - exists b. split; [|exact Hwb]. rewrite Hag; [exact Hb|]. simpl. in_list.
Qed.

End Ranges.


(** The operator leaves the trackbars where the default set puts them; two
    frames are captured and the first is processed. *)
Definition untouched : world nat :=
  World (FileSys Absent Healthy) true None (fun n => Some n)
        (fun _ name => resting name) (fun _ => -1).

Lemma untouched_in_range : positions_in_range untouched.
Proof.
  intros n sl Hsl. unfold ExtendedMain.sliders in Hsl.
  repeat (apply elem_of_cons in Hsl as [->|Hsl]; [vm_compute; split; discriminate|]).
  apply elem_of_nil in Hsl. destruct Hsl.
Qed.


(** ** The startup [rho] *)

(** [config.json] holds [rho] = 0.005, a positive value, and is otherwise the
    default set; the [rho] trackbar, created at [int(0.005 * 100)], stands
    at 0. *)
Definition small_rho_fields : gmap string pyval :=
  <["rho" := VFloat 0.005%float]> (list_to_map Extended.default_items).

Definition small_rho_start : world nat :=
  World (FileSys (Holds (VDict small_rho_fields)) Healthy) true None (fun n => Some n)
        (fun _ name => if String.eqb name "rho" then 0 else resting name)
        (fun _ => -1).

(** C9, as stated, fails: in this run of [line_follower_main.py] the file is
    loaded as it is (all six keys are there, and [rho] is positive), and the
    consumer reads [rho] = 0.005, which is below 0.01, under the lock. *)
Lemma consumer_observes_small_rho :
  extended_in_range small_rho_fields /\
  py_getitem (fst (Extended.load_config (disk small_rho_start))) "rho" =
    Ok (VFloat 0.005%float) /\
  (fun snap => snap !! "rho") <$>
    observed (exec ExtendedMain.prog small_rho_start (consumer_first 6)) =
    [Some (VFloat 0.005%float)] /\
  PrimFloat.ltb 0.005%float 0.01%float = true.
Proof.
  split.
  { unfold extended_in_range, field.
    repeat split; eexists; (split; [vm_compute; reflexivity|vm_compute; reflexivity]). }
  repeat split; vm_compute; reflexivity.
Qed.

(** C9, amended. In [line_follower_main.py], under every schedule: the [rho]
    of every set the producer publishes is [max(0.01, position / 100.0)] for
    the position the [rho] trackbar reported in that iteration, which is
    never below 0.01; and the [rho] of every snapshot of the consumer is
    either such a value or the [rho] of the ParameterSet [main] started
    from, whatever that is. *)
Theorem published_rho_is_floored :
  forall (frame : Type) (w : world frame) (sched : list thread),
    let s := exec ExtendedMain.prog w sched in
    (forall z, PrimFloat.leb 0.01%float (Extended.rho_of_slider z) = true) /\
    (forall u, u ∈ published s ->
       exists n, u !! "rho" = Some (VFloat (Extended.rho_of_slider (trackbar_pos w n "rho")))) /\
    (forall snap, snap ∈ observed s ->
       (exists d, fst (Extended.load_config (disk w)) = VDict d /\ snap !! "rho" = d !! "rho") \/
       (exists z, snap !! "rho" = Some (VFloat (Extended.rho_of_slider z)))).
Proof.
  intros frame w sched s.
  assert (forall u, u ∈ published s ->
            exists n, u !! "rho" =
                      Some (VFloat (Extended.rho_of_slider (trackbar_pos w n "rho")))) as Hpub.
  { intros u Hu.
    destruct (published_are_readings ExtendedMain.prog w extended_well_formed sched u Hu)
      as [n Hn].
    exists n.
    apply (Hn (Slider "rho" 1000 "rho" (fun z => VFloat (Extended.rho_of_slider z)))).
    simpl. in_list. }
  split; [exact rho_of_slider_floor|]. split; [exact Hpub|].
  intros snap Hsnap.
  destruct (snapshots_are_whole ExtendedMain.prog w extended_well_formed sched snap Hsnap)
    as (d & [Hd|Hd] & Hag).
  - left. exists d. split; [exact Hd|]. apply Hag. simpl. in_list.
  - right. destruct (Hpub d Hd) as [n Hn]. eexists.
    rewrite <- Hn. apply Hag. simpl. in_list.
Qed.

(** * Further properties of the configuration store *)

Section StoreMore.

Lemma base_valid_load (fs : filesys) (d : gmap string pyval) :
  config_json fs = Holds (VDict d) -> base_in_range d ->
  Base.load_config fs = (VDict d, []).
Proof.
  intros Hf Hd. unfold Base.load_config, isfile, json_load. rewrite Hf.
  cbn [mbind result_bind].
  assert (Base.valid (VDict d) = Ok true) as ->; [|reflexivity].
  apply base_valid_in_range. eauto.
Qed.

Lemma extended_keys_load (fs : filesys) (d : gmap string pyval) :
  config_json fs = Holds (VDict d) ->
  (forall k, k ∈ Extended.default_items.*1 -> is_Some (d !! k)) ->
  Extended.load_config fs = (VDict d, []).
Proof.
  intros Hf Hd. unfold Extended.load_config, isfile, json_load. rewrite Hf.
  cbn [mbind result_bind]. rewrite py_all_in_dict.
  assert (forallb (fun k => bool_decide (is_Some (d !! k)))
            (Extended.default_items.*1) = true) as ->; [|reflexivity].
  apply forallb_forall. intros k Hk. apply bool_decide_eq_true.
  apply Hd, list_elem_of_In, Hk.
Qed.

Lemma base_missing_min_val (fs : filesys) (d : gmap string pyval) :
  config_json fs = Holds (VDict d) -> d !! "min_val" = None ->
  Base.load_config fs = (Base.default_config, [ConfigReadError KeyError]).
Proof.
  intros Hf Hd. unfold Base.load_config, isfile, json_load. rewrite Hf.
  cbn [mbind result_bind]. unfold Base.valid, py_getitem. rewrite Hd. reflexivity.
Qed.

Lemma base_missing_max_val (fs : filesys) (d : gmap string pyval) :
  config_json fs = Holds (VDict d) ->
  field d "min_val" (within 0 255) -> d !! "max_val" = None ->
  Base.load_config fs = (Base.default_config, [ConfigReadError KeyError]).
Proof.
  intros Hf (a & Ha & Hwa) Hd. unfold Base.load_config, isfile, json_load. rewrite Hf.
  cbn [mbind result_bind]. unfold Base.valid, py_getitem. rewrite Ha.
  cbn [mbind result_bind]. rewrite Hwa. cbn [mbind result_bind]. rewrite Hd.
  reflexivity.
Qed.

End StoreMore.

(** X1. Whatever is at [config.json] - nothing, an unreadable or garbled
    file, any JSON value - [Line_detection.load_config] returns, without
    raising, a dict whose [min_val] and [max_val] are numbers within
    [0, 255]. *)
Theorem base_load_always_in_range :
  forall fs : filesys,
    exists d, fst (Base.load_config fs) = VDict d /\ base_in_range d.
Proof.
  intros fs. destruct (base_load_all_or_nothing fs) as [E|(v & _ & Hv & E)].
  - rewrite E. apply base_default_in_range.
  - rewrite E. simpl. apply base_valid_in_range, Hv.
Qed.




(** The six keys, with a string, [null], a list and negative numbers as
    values. *)
Definition odd_values : gmap string pyval :=
  <["min_val" := VStr "low"]> (<["max_val" := VNone]>
    (<["hough_threshold" := VList []]> (<["min_line_length" := VInt (-3)]>
      (<["max_line_gap" := VBool true]> (<["rho" := VFloat (-1)%float]> ∅))))).






(** * The [rho] trackbar and its scaling *)

(** [int(f)] for a float: truncation toward zero; [None] where Python raises
    ([nan], [inf]). *)
Definition py_int_of_float (f : float) : option Z :=
  match Prim2SF f with
  | S754_zero _ => Some 0
  | S754_finite s m e =>
      let v := if 0 <=? e then Z.pos m * 2 ^ e else Z.pos m / 2 ^ (- e) in
      Some (if s then - v else v)
  | _ => None
  end.

(** [initial_rho_scaled = int(config["rho"] * 100)] of
    [line_follower_main.main], for a number [config["rho"]]. *)
Definition initial_rho_scaled (rho : num) : option Z :=
  match rho with
  | NInt z => Some (z * 100)
  | NFloat f => py_int_of_float (PrimFloat.mul f 100%float)
  end.

Section Scaling.

(** The positions of the [rho] trackbar. *)
Definition rho_positions : list Z := Z.of_nat <$> seq 0 1001.

Lemma rho_positions_all (P : Z -> bool) (z : Z) :
  forallb P rho_positions = true -> 0 <= z <= 1000 -> P z = true.
Proof.
  intros H Hz. rewrite forallb_forall in H. apply H.
  unfold rho_positions. apply list_elem_of_In, list_elem_of_fmap.
  exists (Z.to_nat z). split; [lia|].
  apply list_elem_of_In, in_seq. lia.
Qed.

Definition rho_in_band (z : Z) : bool :=
  PrimFloat.leb 0.01%float (Extended.rho_of_slider z) &&
  PrimFloat.leb (Extended.rho_of_slider z) 10%float &&
  ((z <=? 1) || PrimFloat.eqb (Extended.rho_of_slider z)
                  (PrimFloat.div (float_of_Z z) 100%float)) &&
  ((1 <? z) || PrimFloat.eqb (Extended.rho_of_slider z) 0.01%float).

Lemma rho_in_band_all : forallb rho_in_band rho_positions = true.
Proof. vm_compute. reflexivity. Qed.

Definition restart_near (z : Z) : bool :=
  match initial_rho_scaled (NFloat (Extended.rho_of_slider z)) with
  | Some z' => (Z.max 1 (z - 1) <=? z') && (z' <=? Z.max 1 z)
  | None => false
  end.

Lemma restart_near_all : forallb restart_near rho_positions = true.
Proof. vm_compute. reflexivity. Qed.

End Scaling.

(** X6. For every position the [rho] trackbar can report (0 to 1000), the
    value assigned to [config["rho"]] lies between 0.01 and 10.0; it is the
    float quotient [position / 100.0] from position 2 on, and 0.01 at
    positions 0 and 1. *)
Theorem published_rho_band :
  forall z : Z,
    0 <= z <= 1000 ->
    PrimFloat.leb 0.01%float (Extended.rho_of_slider z) = true /\
    PrimFloat.leb (Extended.rho_of_slider z) 10%float = true /\
    (1 < z -> PrimFloat.eqb (Extended.rho_of_slider z)
                (PrimFloat.div (float_of_Z z) 100%float) = true) /\
    (z <= 1 -> PrimFloat.eqb (Extended.rho_of_slider z) 0.01%float = true).
Proof.
  intros z Hz.
  pose proof (rho_positions_all rho_in_band z rho_in_band_all Hz) as H.
  unfold rho_in_band in H.
  apply andb_true_iff in H as [H H4]. apply andb_true_iff in H as [H H3].
  apply andb_true_iff in H as [H1 H2].
  repeat split; try assumption.
  - intros Hlt. apply orb_true_iff in H3 as [H3|H3]; [|exact H3].
    apply Z.leb_le in H3. lia.
  - intros Hle. apply orb_true_iff in H4 as [H4|H4]; [|exact H4].
    apply Z.ltb_lt in H4. lia.
Qed.

Lemma published_rho_band_witness :
  PrimFloat.leb (Extended.rho_of_slider 1000) 10%float = true /\
  PrimFloat.eqb (Extended.rho_of_slider 0) 0.01%float = true.
Proof.
  assert (0 <= 1000 <= 1000) as Htop by lia.
  assert (0 <= 0 <= 1000) as Hbot by lia.
  destruct (published_rho_band 1000 Htop) as (_ & H1 & _).
  destruct (published_rho_band 0 Hbot) as (_ & _ & _ & H2).
  split; [exact H1|]. apply H2. lia.
Defined.

(** X7. Restarting does not always restore the [rho] trackbar. The position
    the trackbar is created at, [int(rho * 100)], for the [rho] published at
    position [z] (1 to 1000) is [z] or [z - 1]: the float product can fall
    just below the integer and [int] truncates. Position 29 comes back as
    28, and position 0 comes back as 1. *)
Theorem rho_restart_position :
  forall z : Z,
    0 <= z <= 1000 ->
    (exists z', initial_rho_scaled (NFloat (Extended.rho_of_slider z)) = Some z' /\
                Z.max 1 (z - 1) <= z' <= Z.max 1 z) /\
    initial_rho_scaled (NFloat (Extended.rho_of_slider 29)) = Some 28 /\
    initial_rho_scaled (NFloat (Extended.rho_of_slider 0)) = Some 1.
Proof.
  intros z Hz. split; [|split; vm_compute; reflexivity].
  pose proof (rho_positions_all restart_near z restart_near_all Hz) as H.
  unfold restart_near in H.
  destruct (initial_rho_scaled (NFloat (Extended.rho_of_slider z))) as [z'|];
    [|discriminate].
  exists z'. split; [reflexivity|].
  apply andb_true_iff in H as [H1 H2].
  apply Z.leb_le in H1. apply Z.leb_le in H2. lia.
Qed.

Lemma rho_restart_position_witness :
  exists z', initial_rho_scaled (NFloat (Extended.rho_of_slider 500)) = Some z' /\
             Z.max 1 (500 - 1) <= z' <= Z.max 1 500.
Proof.
  assert (0 <= 500 <= 1000) as Hmid by lia.
  destruct (rho_restart_position 500 Hmid) as [H _]. exact H.
Defined.

(** * Further properties of the frame pipeline *)

(** ** The lock *)

Section LockMore.

Context {frame : Type} (p : program) (w : world frame).

Lemma proc_never_writes_config (s : state frame) :
  config (step_proc p w s) = config s.
Proof. unfold step_proc. repeat case_match; reflexivity. Qed.

Lemma main_writes_config_at (s : state frame) :
  config (step_main p w s) <> config s ->
  mpc s = MLoad \/ exists i, mpc s = MAssign i.
Proof.
  unfold step_main. intros H.
  destruct (mpc s) eqn:Em; eauto; exfalso; apply H;
    repeat case_match; reflexivity.
Qed.

End LockMore.

(** X8. Mutual exclusion. In every reachable state [config_lock] is held by
    [main] exactly while [main] is inside its [with] block, by the consumer
    exactly while the consumer is inside its own, and the two are never
    inside at the same time. The shared dict changes only by a statement of
    [main], either [load_config] at startup or an assignment made while
    [main] holds the lock; the consumer never writes it. *)
Theorem config_lock_is_exclusive :
  forall (frame : Type) (p : program) (w : world frame) (sched : list thread),
    let s := exec p w sched in
    (lock s = Some Main <-> exists i, mpc s = MAssign i) /\
    (lock s = Some Processor <-> exists i, ppc s = PLookup i) /\
    ((exists i, mpc s = MAssign i) /\ (exists i, ppc s = PLookup i) -> False) /\
    (forall t, config (step p w t s) <> config s ->
               t = Main /\ (mpc s = MLoad \/ lock s = Some Main)).
Proof.
  intros frame p w sched s.
  destruct (sane_exec p w sched) as (Hl & Hx & _ & _). fold s in Hl, Hx.
  assert (lock s = Some Main <-> exists i, mpc s = MAssign i) as Hmain.
  { rewrite Hl. destruct (mpc s), (ppc s); simpl; split;
      first [discriminate | intros [? ?]; discriminate | eauto]. }
  split; [exact Hmain|]. split; [|split].
  - rewrite Hl. destruct (mpc s), (ppc s); simpl in *; split;
      first [discriminate | intros [? ?]; discriminate | contradiction | eauto].
  - intros [[i Hi] [j Hj]]. rewrite Hi, Hj in Hx. exact Hx.
  - intros t Ht. destruct t; cbn [step] in Ht.
    + split; [reflexivity|].
      destruct (main_writes_config_at p w s Ht) as [H|H]; [left; exact H|].
      right. apply Hmain, H.
    + destruct Ht. apply proc_never_writes_config.
Qed.

(** ** The queue *)

Section QueueMore.

Context {frame : Type} (p : program) (w : world frame).

(** The frames [main] has taken from the camera: those pushed, and the one
    it is about to push. *)
Definition captured (s : state frame) : list frame :=
  pushed s ++ match mpc s with MPut f => [f] | _ => [] end.

Definition in_capture_order (s : state frame) : Prop :=
  Some <$> captured s = camera_read w <$> seq 0 (length (captured s)) /\
  (iter s = length (captured s) \/
   (left_loop (mpc s) /\ iter s = S (length (captured s)))).

Lemma main_other_facts (s : state frame) :
  mpc s <> MRead ->
  iter (step_main p w s) = iter s /\
  (left_loop (mpc s) -> left_loop (mpc (step_main p w s))) /\
  (forall f, mpc (step_main p w s) <> MPut f) /\
  pushed (step_main p w s) = pushed s ++ match mpc s with MPut f => [f] | _ => [] end.
Proof.
  intros Hr. unfold step_main.
  destruct (mpc s) eqn:Em; try congruence;
    repeat case_match; simpl; rewrite ?Em, ?app_nil_r;
    repeat split; auto; discriminate.
Qed.

Lemma captured_main_other (s : state frame) :
  mpc s <> MRead ->
  captured (step_main p w s) = captured s /\
  iter (step_main p w s) = iter s /\
  (left_loop (mpc s) -> left_loop (mpc (step_main p w s))).
Proof.
  intros Hr. destruct (main_other_facts s Hr) as (Hi & Hl & Hn & Hp).
  split; [|split; assumption]. unfold captured. rewrite Hp.
  destruct (mpc (step_main p w s)) eqn:E; try apply app_nil_r.
  destruct (Hn _ eq_refl).
Qed.

Lemma in_capture_order_step (t : thread) (s : state frame) :
  in_capture_order s -> in_capture_order (step p w t s).
Proof.
  unfold in_capture_order. intros [Hc Hi]. destruct t; cbn [step].
  - assert (mpc s = MRead \/ mpc s <> MRead) as [Em|Em]
      by (destruct (mpc s); auto; right; discriminate).
    + unfold captured in *. unfold step_main. rewrite Em in *. simpl in Hi.
      rewrite app_nil_r in Hc, Hi. destruct Hi as [Hi|[[] _]].
      destruct (camera_read w (iter s)) as [f|] eqn:Er; simpl.
      * split; [|left; rewrite length_app; simpl; lia].
        rewrite length_app, fmap_app. simpl. rewrite Nat.add_1_r, seq_S, fmap_app.
        simpl. rewrite <- Hc, <- Hi, Er. reflexivity.
      * rewrite app_nil_r. split; [exact Hc|]. right. split; [exact I|]. lia.
    + destruct (captured_main_other s Em) as (-> & -> & Hleft).
      split; [exact Hc|]. destruct Hi as [Hi|[Hl Hi]]; auto.
  - assert (pushed (step_proc p w s) = pushed s /\
            mpc (step_proc p w s) = mpc s /\
            iter (step_proc p w s) = iter s) as (Hp & Hm & Ht).
    { unfold step_proc. repeat case_match; auto. }
    unfold captured in *. rewrite Hp, Hm, Ht. auto.
Qed.

Lemma in_capture_order_exec (sched : list thread) :
  in_capture_order (exec p w sched).
Proof.
  unfold exec. apply run_invariant.
  - apply in_capture_order_step.
  - split; [reflexivity|]. left. reflexivity.
Qed.

Lemma queue_history_exec (sched : list thread) :
  pushed (exec p w sched) = popped (exec p w sched) ++ queue (exec p w sched).
Proof.
  unfold exec. apply (run_invariant p w (fun s => pushed s = popped s ++ queue s)).
  - intros t s. apply queue_history_step.
  - reflexivity.
Qed.

(** [get()] is reached only with a frame in the queue. *)
Definition get_is_ready (s : state frame) : Prop :=
  ppc s = PGet -> queue s <> [].

Lemma get_is_ready_step (t : thread) (s : state frame) :
  get_is_ready s -> get_is_ready (step p w t s).
Proof.
  unfold get_is_ready. intros H. destruct t; cbn [step].
  - assert ((ppc (step_main p w s) = PGet -> ppc s = PGet) /\
            (queue (step_main p w s) = queue s \/
             exists f, queue (step_main p w s) = queue s ++ [f])) as (Hsame & Hq).
    { unfold step_main. repeat case_match; simpl;
        (split; [congruence || discriminate|eauto]). }
    intros Hp. specialize (H (Hsame Hp)).
    destruct Hq as [-> | [f ->]]; [exact H|].
    intros E. apply app_eq_nil in E as [_ E]. discriminate.
  - unfold step_proc.
    destruct (ppc s) eqn:Ep; repeat case_match; simpl; rewrite ?Ep;
      first [exact H | intros E; discriminate E | intros _; congruence
            | destruct (H eq_refl eq_refl)].
Qed.

Lemma get_is_ready_exec (sched : list thread) : get_is_ready (exec p w sched).
Proof.
  unfold exec. apply run_invariant.
  - apply get_is_ready_step.
  - intros H. discriminate.
Qed.

End QueueMore.

(** X9. The consumer's blocking [frame_queue.get()] never blocks: whenever
    the consumer is at that statement the queue holds a frame - the one it
    saw with [empty()], or an older one - and the statement returns the
    oldest frame. *)
Theorem get_never_blocks :
  forall (frame : Type) (p : program) (w : world frame) (sched : list thread),
    let s := exec p w sched in
    ppc s = PGet ->
    exists f q,
      queue s = f :: q /\
      ppc (step p w Processor s) = PAcquire /\
      queue (step p w Processor s) = q /\
      popped (step p w Processor s) = popped s ++ [f].
Proof.
  intros frame p w sched s Hp.
  pose proof (get_is_ready_exec p w sched Hp) as Hq. fold s in Hq.
  destruct (queue s) as [|f q] eqn:Eq; [contradiction|].
  exists f, q. cbn [step]. unfold step_proc. rewrite Hp, Eq. simpl. auto.
Qed.

Lemma get_never_blocks_witness :
  exists f q,
    queue (exec BaseMain.prog quits (replicate 15 Main ++ replicate 2 Processor)) = f :: q /\
    ppc (step BaseMain.prog quits Processor
           (exec BaseMain.prog quits (replicate 15 Main ++ replicate 2 Processor))) = PAcquire /\
    queue (step BaseMain.prog quits Processor
             (exec BaseMain.prog quits (replicate 15 Main ++ replicate 2 Processor))) = q /\
    popped (step BaseMain.prog quits Processor
              (exec BaseMain.prog quits (replicate 15 Main ++ replicate 2 Processor))) =
      popped (exec BaseMain.prog quits (replicate 15 Main ++ replicate 2 Processor)) ++ [f].
Proof.
  assert (ppc (exec BaseMain.prog quits (replicate 15 Main ++ replicate 2 Processor)) = PGet)
    as Hp by (vm_compute; reflexivity).
  exact (get_never_blocks nat BaseMain.prog quits
           (replicate 15 Main ++ replicate 2 Processor) Hp).
Defined.

(** X10. Frames are processed in capture order with none skipped: in every
    reachable state the frames pushed so far are exactly the results of the
    first [camera.read()] calls, in order, and so are the frames the
    consumer has popped; [main] has made as many reads as it has pushed
    frames, or one more. *)
Theorem frames_follow_the_camera :
  forall (frame : Type) (p : program) (w : world frame) (sched : list thread),
    let s := exec p w sched in
    Some <$> pushed s = camera_read w <$> seq 0 (length (pushed s)) /\
    Some <$> popped s = camera_read w <$> seq 0 (length (popped s)) /\
    (length (pushed s) <= iter s <= length (pushed s) + 1)%nat.
Proof.
  intros frame p w sched s.
  destruct (in_capture_order_exec p w sched) as [Hc Hi]. fold s in Hc, Hi.
  pose proof (queue_history_exec p w sched) as Hq. fold s in Hq.
  unfold captured in Hc, Hi.
  assert (Some <$> pushed s = camera_read w <$> seq 0 (length (pushed s))) as Hpush.
  { destruct (mpc s); simpl in Hc; rewrite ?app_nil_r in Hc; try exact Hc.
    rewrite length_app, fmap_app in Hc. simpl in Hc.
    rewrite Nat.add_1_r, seq_S, fmap_app in Hc. simpl in Hc.
    apply app_inj_2 in Hc as [Hc _]; [exact Hc|reflexivity]. }
  split; [exact Hpush|]. split.
  - rewrite Hq in Hpush. rewrite length_app, seq_app, !fmap_app in Hpush.
    apply app_inj_1 in Hpush as [H _]; [exact H|].
    rewrite !length_fmap, length_seq. reflexivity.
  - destruct (mpc s); simpl in Hi; rewrite ?app_nil_r, ?length_app in Hi;
      simpl in Hi; destruct Hi as [Hi|[Hl Hi]]; try lia; destruct Hl.
Qed.

(** ** Counting what the consumer does *)

(** The consumer holds a popped frame it has not yet taken a snapshot for. *)
Definition before_snapshot (q : proc_pc) : nat :=
  match q with
  | PAcquire | PLookup _ => 1
  | _ => 0
  end.

(** The consumer has taken a snapshot and not yet polled the key. *)
Definition before_poll (q : proc_pc) : nat :=
  match q with
  | PDetect | PWaitKey => 1
  | _ => 0
  end.

Section Counting.

Context {frame : Type} (p : program) (w : world frame).

Definition counted (s : state frame) : Prop :=
  (polls s + before_poll (ppc s) <= length (observed s))%nat /\
  (length (observed s) + before_snapshot (ppc s) <= length (popped s))%nat.

Lemma counted_step (t : thread) (s : state frame) :
  counted s -> counted (step p w t s).
Proof.
  unfold counted. intros [H1 H2]. destruct t; cbn [step].
  - assert (polls (step_main p w s) = polls s /\
            observed (step_main p w s) = observed s /\
            popped (step_main p w s) = popped s /\
            (ppc (step_main p w s) = ppc s \/ ppc (step_main p w s) = PWhile))
      as (-> & -> & -> & Hp).
    { unfold step_main. repeat case_match; simpl; repeat split; auto. }
    destruct Hp as [-> | ->]; [auto|]. simpl. lia.
  - unfold step_proc. destruct (ppc s) eqn:Ep; repeat case_match; simpl in *;
      rewrite ?Ep, ?length_app; simpl; lia.
Qed.

Lemma counted_exec (sched : list thread) : counted (exec p w sched).
Proof.
  unfold exec. apply run_invariant.
  - apply counted_step.
  - unfold counted. simpl. lia.
Qed.

End Counting.

(** X11. The consumer polls the quit key only after it has processed a
    frame: in every reachable state the number of [cv2.waitKey(1)] calls it
    has made is at most the number of snapshots it has completed, which is
    at most the number of frames it has popped, which is at most the number
    of frames pushed, which is at most the number of [camera.read()] calls.
    In particular a consumer that has popped no frame has never polled the
    key. *)
Theorem consumer_polls_once_per_frame :
  forall (frame : Type) (p : program) (w : world frame) (sched : list thread),
    let s := exec p w sched in
    (polls s <= length (observed s))%nat /\
    (length (observed s) <= length (popped s))%nat /\
    (length (popped s) <= length (pushed s))%nat /\
    (length (pushed s) <= iter s)%nat.
Proof.
  intros frame p w sched s.
  destruct (counted_exec p w sched) as [H1 H2]. fold s in H1, H2.
  pose proof (queue_history_exec p w sched) as Hq. fold s in Hq.
  destruct (in_capture_order_exec p w sched) as [_ Hi]. fold s in Hi.
  repeat split; try lia.
  - rewrite Hq, length_app. lia.
  - unfold captured in Hi. rewrite length_app in Hi. lia.
Qed.

(** ** When the file is written *)

Section Persist.

Context {frame : Type} (p : program) (w : world frame).

(** The camera is released and the storage touched at the end of [main]
    only; once [main] has ended after the release, the storage is what the
    exit save made of the startup storage and the final shared dict. *)
Definition unsaved (s : state frame) : Prop :=
  match mpc s with
  | MSave => released s = true /\ fs s = disk w
  | MReturned =>
      (released s = false /\ fs s = disk w) \/
      (released s = true /\ save_on_exit p (config s) (disk w) = (fs s, Ok tt))
  | MRaised e =>
      (released s = false /\ fs s = disk w) \/
      (released s = true /\ save_on_exit p (config s) (disk w) = (fs s, Raise e))
  | _ => released s = false /\ fs s = disk w
  end.

Lemma unsaved_step (t : thread) (s : state frame) :
  unsaved s -> unsaved (step p w t s).
Proof.
  unfold unsaved. intros H. destruct t; cbn [step].
  - unfold step_main. destruct (mpc s) eqn:Em.
    + destruct (load_config p (fs s)). simpl. exact H.
    + destruct (camera_opens w); simpl; auto.
    + destruct (setup_reads _ _); [destruct (setup_error w)|]; simpl; auto.
    + simpl. exact H.
    + destruct (running s); simpl; exact H.
    + destruct (camera_read w (iter s)); simpl; exact H.
    + simpl. exact H.
    + destruct (lock s); simpl; rewrite ?Em; exact H.
    + destruct (sliders p !! i); [destruct (py_setitem _ _ _)|]; simpl; auto.
    + simpl. exact H.
    + destruct (ppc s); simpl; rewrite ?Em; exact H.
    + simpl. destruct H as [_ Hfs]. auto.
    + destruct H as [Hr Hfs].
      destruct (save_on_exit p (config s) (fs s)) as [fs' [[]|e]] eqn:Es; simpl;
        right; (split; [exact Hr|]); rewrite <- Hfs; exact Es.
    + rewrite Em. exact H.
    + rewrite Em. exact H.
  - assert (mpc (step_proc p w s) = mpc s /\ released (step_proc p w s) = released s /\
            fs (step_proc p w s) = fs s /\ config (step_proc p w s) = config s)
      as (-> & -> & -> & ->).
    { unfold step_proc. repeat case_match; auto. }
    exact H.
Qed.

Lemma unsaved_exec (sched : list thread) : unsaved (exec p w sched).
Proof.
  unfold exec. apply run_invariant.
  - apply unsaved_step.
  - unfold unsaved. simpl. auto.
Qed.

End Persist.

(** X12. [config.json] is written at the very end of [main] only. In every
    reachable state of either program the storage is exactly as at startup
    unless [main] has ended after releasing the camera; and the camera is
    released only when [main] is at, or past, its final [save_config]. So a
    run that is interrupted before that persists nothing of what the
    operator tuned. *)
Theorem file_is_written_only_at_exit :
  forall (frame : Type) (p : program) (w : world frame) (sched : list thread),
    let s := exec p w sched in
    (fs s = disk w \/
     (released s = true /\ (mpc s = MReturned \/ exists e, mpc s = MRaised e))) /\
    (released s = true ->
     mpc s = MSave \/ mpc s = MReturned \/ exists e, mpc s = MRaised e).
Proof.
  intros frame p w sched s.
  pose proof (unsaved_exec p w sched) as H. fold s in H. unfold unsaved in H.
  destruct (mpc s) eqn:Em;
    try (destruct H as [Hr Hfs]; split; [left; exact Hfs|];
         intros E; rewrite E in Hr; first [discriminate | eauto]).
  - destruct H as [[Hr Hfs]|[Hr Hs]].
    + split; [left; exact Hfs|]. intros E. rewrite E in Hr. discriminate.
    + split; [right|]; eauto.
  - destruct H as [[Hr Hfs]|[Hr Hs]].
    + split; [left; exact Hfs|]. intros E. rewrite E in Hr. discriminate.
    + split; [right|]; eauto 6.
Qed.

(** ** Subscripts on the shared dict *)

(** [main] is past [frame_processor.start()] and not past [save_config]. *)
Definition past_start {frame : Type} (m : main_pc frame) : bool :=
  match m with
  | MWhile | MRead | MPut _ | MAcquire | MAssign _ | MWaitKey
  | MJoin | MCameraRelease | MSave => true
  | _ => false
  end.

Lemma setup_reads_keys (c : gmap string pyval) (l : list slider) :
  setup_reads (VDict c) l = Ok tt ->
  forall sl, sl ∈ l -> is_Some (c !! slider_key sl).
Proof.
  induction l as [|sl0 l IH]; intros H sl Hsl.
  - apply elem_of_nil in Hsl. destruct Hsl.
  - simpl in H. destruct (c !! slider_key sl0) as [v|] eqn:E; [|discriminate].
    simpl in H. apply elem_of_cons in Hsl as [->|Hsl]; [eauto|].
    apply IH; assumption.
Qed.

Section Guard.

Context {frame : Type} (p : program) (w : world frame).
Hypothesis wf : well_formed p.

(** The shared object is a dict holding every key the trackbars assign. *)
Definition keyed (s : state frame) : Prop :=
  exists c, config s = VDict c /\
            forall sl, sl ∈ sliders p -> is_Some (c !! slider_key sl).

Definition guarded (s : state frame) : Prop :=
  match mpc s with
  | MStart => setup_reads (config s) (sliders p) = Ok tt
  | _ => True
  end /\
  (ppc s <> PUnborn -> keyed s) /\
  (forall e, ppc s <> PRaised e) /\
  (past_start (mpc s) = true -> ppc s <> PUnborn) /\
  (ppc s <> PUnborn ->
   match mpc s with
   | MReturned | MRaised _ => released s = true
   | _ => True
   end).

Lemma keyed_lookup (s : state frame) (k : string) :
  keyed s -> k ∈ lookups p -> exists v, py_getitem (config s) k = Ok v.
Proof.
  intros (c & Ec & Hc) Hk. destruct wf as (_ & _ & Hcov).
  apply Hcov, list_elem_of_fmap in Hk as (sl & -> & Hsl).
  destruct (Hc sl Hsl) as [v Hv]. exists v. rewrite Ec. simpl. rewrite Hv.
  reflexivity.
Qed.

Lemma keyed_assign (s : state frame) (k : string) (v : pyval) :
  keyed s ->
  exists c', py_setitem (config s) k v = Ok (VDict c') /\
             forall sl, sl ∈ sliders p -> is_Some (c' !! slider_key sl).
Proof.
  intros (c & Ec & Hc). exists (<[k := v]> c). rewrite Ec. split; [reflexivity|].
  intros sl Hsl. apply lookup_insert_is_Some'. right. apply Hc, Hsl.
Qed.

Lemma guarded_main (s : state frame) :
  sane s -> unsaved p w s -> guarded s -> guarded (step_main p w s).
Proof.
  intros (_ & _ & Hs & _) Hu (G1 & G2 & G3 & G4 & G5).
  unfold guarded, step_main. unfold unsaved in Hu.
  destruct (mpc s) eqn:Em; simpl in *.
  - specialize (Hs eq_refl). destruct (load_config p (fs s)). simpl.
    rewrite Hs. repeat split; try congruence; discriminate.
  - specialize (Hs eq_refl). destruct (camera_opens w); simpl;
      rewrite Hs; repeat split; try congruence; discriminate.
  - specialize (Hs eq_refl).
    destruct (setup_reads (config s) (sliders p)) as [[]|e] eqn:Er;
      [destruct (setup_error w)|]; simpl;
      rewrite Hs; repeat split; try congruence; discriminate.
  - repeat split; try discriminate. intros _.
    destruct wf as (Hne & _).
    destruct (setup_reads_dict _ _ Hne G1) as [c Ec]. exists c.
    split; [exact Ec|]. rewrite Ec in G1. apply (setup_reads_keys c _ G1).
  - destruct (running s); simpl; repeat split; auto.
  - destruct (camera_read w (iter s)); simpl; repeat split; auto.
  - repeat split; auto.
  - destruct (lock s); simpl; rewrite ?Em; simpl; repeat split; auto.
  - specialize (G4 eq_refl). specialize (G2 G4).
    destruct (sliders p !! i) as [sl|]; simpl; [|repeat split; auto].
    destruct (keyed_assign s (slider_key sl)
                (slider_value sl (trackbar_pos w (iter s) (slider_name sl))) G2)
      as (c' & -> & Hc'). simpl.
    repeat split; auto. intros _. exists c'. auto.
  - repeat split; auto.
  - destruct (ppc s) eqn:Ep; simpl; rewrite ?Em, ?Ep; simpl; repeat split; auto.
  - repeat split; auto.
  - destruct Hu as [Hr _].
    destruct (save_on_exit p (config s) (fs s)) as [fs' [u|e]]; simpl;
      repeat split; auto; discriminate.
  - rewrite Em. repeat split; auto.
  - rewrite Em. repeat split; auto.
Qed.

Lemma guarded_proc (s : state frame) :
  guarded s -> guarded (step_proc p w s).
Proof.
  intros (G1 & G2 & G3 & G4 & G5).
  assert (mpc (step_proc p w s) = mpc s /\ config (step_proc p w s) = config s /\
          released (step_proc p w s) = released s) as (Em & Ec & Er).
  { unfold step_proc. repeat case_match; auto. }
  assert (ppc (step_proc p w s) = PUnborn -> ppc s = PUnborn) as Hborn.
  { unfold step_proc. repeat case_match; simpl; congruence. }
  assert (forall e, ppc (step_proc p w s) <> PRaised e) as Hraise.
  { intros e. unfold step_proc. destruct (ppc s) eqn:Ep.
    - rewrite Ep. discriminate.
    - destruct (running s); simpl; discriminate.
    - destruct (queue s); simpl; discriminate.
    - destruct (queue s); simpl; rewrite ?Ep; discriminate.
    - destruct (lock s); simpl; rewrite ?Ep; discriminate.
    - destruct (lookups p !! i) as [k|] eqn:Ei; [|simpl; discriminate].
      destruct (keyed_lookup s k) as [v Hv].
      + apply G2. discriminate.
      + apply (list_elem_of_lookup_2 _ i), Ei.
      + rewrite Hv. simpl. discriminate.
    - simpl. discriminate.
    - destruct (Z.land _ _ =? ord_q); simpl; discriminate.
    - rewrite Ep. discriminate.
    - rewrite Ep. apply G3. }
  assert (ppc s = PUnborn -> ppc (step_proc p w s) = PUnborn) as Hstay.
  { intros E. unfold step_proc. rewrite E. exact E. }
  unfold guarded, keyed. rewrite Em, Ec, Er. repeat split; auto.
  - intros H. apply G2. intros E. apply H, Hstay, E.
  - intros H E. apply (G4 H), Hborn, E.
  - intros H. apply G5. intros E. apply H, Hstay, E.
Qed.

Lemma guarded_exec (sched : list thread) : guarded (exec p w sched).
Proof.
  assert (sane (exec p w sched) /\ unsaved p w (exec p w sched) /\
          guarded (exec p w sched)) as (_ & _ & H); [|exact H].
  unfold exec.
  apply (run_invariant p w (fun s => sane s /\ unsaved p w s /\ guarded s)).
  - intros t s (Hs & Hu & Hg).
    split; [apply sane_step, Hs|]. split; [apply unsaved_step, Hu|].
    destruct t; [apply guarded_main|apply guarded_proc]; assumption.
  - split; [|split].
    + unfold sane. simpl. repeat split; auto; discriminate.
    + unfold unsaved. simpl. auto.
    + unfold guarded. simpl. repeat split; auto; try discriminate.
      intros H. contradiction.
Qed.

End Guard.



(** ** Startup *)

Section Startup.

Context {frame : Type} (p : program) (w : world frame).
Hypothesis opened : camera_opens w = true.

(** What building the settings window comes to: the subscripts on the
    startup dict, then the window itself. *)
Definition setup_outcome : result unit :=
  match setup_reads (startup_config p w) (sliders p) with
  | Ok _ => match setup_error w with
            | Some e => Raise e
            | None => Ok tt
            end
  | Raise e => Raise e
  end.

Definition starting (sched : list thread) (s : state frame) : Prop :=
  match mains sched with
  | 0%nat => mpc s = MLoad /\ fs s = disk w /\ ppc s = PUnborn
  | 1%nat => mpc s = MIsOpened /\ config s = startup_config p w /\
             fs s = disk w /\ ppc s = PUnborn
  | 2%nat => mpc s = MSetup /\ config s = startup_config p w /\
             fs s = disk w /\ ppc s = PUnborn
  | S (S (S n)) =>
      match setup_outcome with
      | Raise e => mpc s = MRaised e /\ fs s = disk w /\ ppc s = PUnborn
      | Ok _ => (n = 0%nat /\ mpc s = MStart /\ ppc s = PUnborn) \/
                ((1 <= n)%nat /\ ppc s <> PUnborn)
      end
  end.

Lemma starting_step (sched : list thread) (t : thread) (s : state frame) :
  starting sched s -> starting (sched ++ [t]) (step p w t s).
Proof.
  unfold starting. rewrite mains_snoc. destruct t; cbn [step].
  - rewrite decide_True by reflexivity. rewrite Nat.add_1_r.
    destruct (mains sched) as [|[|[|n]]].
    + intros (Em & Hfs & Hp). unfold step_main. rewrite Em.
      destruct (load_config p (fs s)) as [c l] eqn:El. simpl.
      repeat split; auto. unfold startup_config. rewrite <- Hfs, El. reflexivity.
    + intros (Em & Hc & Hfs & Hp). unfold step_main. rewrite Em, opened. simpl. auto.
    + intros (Em & Hc & Hfs & Hp). unfold step_main. rewrite Em. unfold setup_outcome.
      rewrite Hc.
      destruct (setup_reads (startup_config p w) (sliders p)) as [[]|e];
        [destruct (setup_error w)|]; simpl; auto.
    + destruct setup_outcome as [[]|e].
      * intros [(-> & Em & Hp)|[Hn Hp]].
        -- unfold step_main. rewrite Em. simpl. right. split; [lia|discriminate].
        -- right. split; [lia|].
           assert (ppc (step_main p w s) = ppc s \/ ppc (step_main p w s) = PWhile)
             as [->| ->]; [|exact Hp|discriminate].
           unfold step_main. repeat case_match; simpl; auto.
      * intros (Em & Hfs & Hp). unfold step_main. rewrite Em. auto.
  - rewrite decide_False by discriminate. rewrite Nat.add_0_r.
    assert (ppc s = PUnborn -> step_proc p w s = s) as Hidle.
    { intros E. unfold step_proc. rewrite E. reflexivity. }
    destruct (mains sched) as [|[|[|n]]].
    + intros (Em & Hfs & Hp). rewrite (Hidle Hp). auto.
    + intros (Em & Hc & Hfs & Hp). rewrite (Hidle Hp). auto.
    + intros (Em & Hc & Hfs & Hp). rewrite (Hidle Hp). auto.
    + destruct setup_outcome as [[]|e].
      * intros [(-> & Em & Hp)|[Hn Hp]]; [rewrite (Hidle Hp); auto|].
        right. split; [exact Hn|].
        unfold step_proc. repeat case_match; simpl; congruence.
      * intros (Em & Hfs & Hp). rewrite (Hidle Hp). auto.
Qed.

Lemma starting_exec (sched : list thread) : starting sched (exec p w sched).
Proof.
  unfold exec. apply run_invariant_sched.
  - unfold starting. simpl. auto.
  - apply starting_step.
Qed.

End Startup.


(** [config.json] holds the JSON list of the six key names. *)
Definition key_names_on_disk : world nat :=
  World (FileSys (Holds (VList (VStr <$> Extended.default_items.*1))) Healthy)
        true None (fun n => Some n) (fun _ name => resting name) (fun _ => -1).


(** X15. [Line_detection.py] always gets its pipeline started: whatever
    [config.json] holds, the dict [load_config] returns has both keys, so
    when the camera opens and the settings window can be built, [main] has
    started the consumer thread after its first four statements. *)
Theorem base_always_starts_the_consumer :
  forall (frame : Type) (w : world frame) (sched : list thread),
    camera_opens w = true ->
    setup_error w = None ->
    (4 <= mains sched)%nat ->
    let s := exec BaseMain.prog w sched in
    setup_reads (fst (Base.load_config (disk w))) BaseMain.sliders = Ok tt /\
    (ppc s = PUnborn -> False).
Proof.
  intros frame w sched Ho He Hn s.
  assert (setup_reads (fst (Base.load_config (disk w))) BaseMain.sliders = Ok tt) as Hr.
  { destruct (base_startup_in_range w) as (d & -> & (a & Ha & _) & (b & Hb & _)).
    simpl. rewrite Ha. simpl. rewrite Hb. reflexivity. }
  split; [exact Hr|].
  pose proof (starting_exec BaseMain.prog w Ho sched) as H. fold s in H.
  unfold starting in H.
  destruct (mains sched) as [|[|[|n]]]; try lia.
  unfold setup_outcome, startup_config in H.
  change (load_config BaseMain.prog) with Base.load_config in H.
  change (sliders BaseMain.prog) with BaseMain.sliders in H.
  rewrite Hr, He in H.
  destruct H as [(-> & _)|[_ H]]; [lia|exact H].
Qed.

(** [config.json] is garbled. *)
Definition garbled_on_disk : world nat :=
  World (FileSys Garbled Healthy) true None (fun n => Some n)
        (fun _ name => resting name) (fun _ => -1).

Lemma base_always_starts_the_consumer_witness :
  setup_reads (fst (Base.load_config (disk garbled_on_disk))) BaseMain.sliders = Ok tt /\
  (ppc (exec BaseMain.prog garbled_on_disk (replicate 4 Main)) = PUnborn -> False).
Proof.
  apply (base_always_starts_the_consumer nat garbled_on_disk (replicate 4 Main)).
  - reflexivity.
  - reflexivity.
  - vm_compute. lia.
Defined.

(** ** Shutdown after the quit key *)

(** Statements [main] still has to execute before it has ended, once the
    flag is false, [n] being the number of trackbars. *)
Definition to_exit {frame : Type} (n : nat) (m : main_pc frame) : nat :=
  match m with
  | MRead => n + 9
  | MPut _ => n + 8
  | MAcquire => n + 7
  | MAssign i => (n - i) + 6
  | MWaitKey => 5
  | MWhile => 4
  | MJoin => 3
  | MCameraRelease => 2
  | MSave => 1
  | _ => 0
  end.

Section Shutdown.

Context {frame : Type} (p : program) (w : world frame).

Definition closing (s0 : state frame) (sched : list thread) (s : state frame) : Prop :=
  running s = false /\ ppc s = PFinished /\
  lock s = lock_of (mpc s) PFinished /\ in_startup (mpc s) = false /\
  keyed p s /\
  match mpc s with
  | MReturned | MRaised _ => released s = true
  | _ => True
  end /\
  (to_exit (length (sliders p)) (mpc s) <=
     to_exit (length (sliders p)) (mpc s0) - mains sched)%nat.

Lemma closing_step (s0 : state frame) (sched : list thread) (t : thread)
    (s : state frame) :
  unsaved p w s ->
  closing s0 sched s -> closing s0 (sched ++ [t]) (step p w t s).
Proof.
  unfold closing. rewrite mains_snoc.
  intros Hu (Hr & Hp & Hl & Hs & Hk & Hrel & Hrem).
  destruct t; cbn [step].
  - rewrite decide_True by reflexivity. unfold step_main. unfold unsaved in Hu.
    destruct (mpc s) eqn:Em; simpl in *; try discriminate.
    + rewrite Hr. simpl. repeat split; auto; lia.
    + destruct (camera_read w (iter s)); simpl; repeat split; auto; lia.
    + repeat split; auto; lia.
    + rewrite Hl. simpl. repeat split; auto; lia.
    + destruct (sliders p !! i) as [sl|] eqn:Ei.
      * apply lookup_lt_Some in Ei.
        destruct (keyed_assign p s (slider_key sl)
                    (slider_value sl (trackbar_pos w (iter s) (slider_name sl))) Hk)
          as (c' & -> & Hc'). simpl.
        repeat split; auto; try lia. exists c'. auto.
      * simpl. repeat split; auto; lia.
    + repeat split; auto; lia.
    + rewrite Hp. simpl. repeat split; auto; lia.
    + repeat split; auto; lia.
    + destruct Hu as [Hrl _].
      destruct (save_on_exit p (config s) (fs s)) as [fs' [u|e]]; simpl;
        repeat split; auto; lia.
    + rewrite Em. simpl. repeat split; auto; lia.
    + rewrite Em. simpl. repeat split; auto; lia.
  - rewrite decide_False by discriminate. unfold step_proc. rewrite Hp.
    rewrite Nat.add_0_r. repeat split; auto.
Qed.

Lemma closing_run (s0 : state frame) (sched : list thread) :
  sane s0 -> unsaved p w s0 -> guarded p s0 -> running s0 = false ->
  closing s0 sched (run p w sched s0) /\ unsaved p w (run p w sched s0).
Proof.
  intros (Hl & _ & Hs & Hr) Hu (_ & G2 & _ & _ & G5) Hf. specialize (Hr Hf).
  apply (run_invariant_sched p w (fun sched s => closing s0 sched s /\ unsaved p w s)).
  - split; [|exact Hu]. unfold closing. rewrite Hr in *.
    split; [exact Hf|]. split; [reflexivity|]. split; [exact Hl|].
    split; [|split; [|split]].
    + destruct (in_startup (mpc s0)); [|reflexivity].
      specialize (Hs eq_refl). discriminate.
    + apply G2. discriminate.
    + apply G5. discriminate.
    + unfold mains. simpl. lia.
  - intros sched' t s [Hc Hu']. split.
    + apply closing_step; assumption.
    + apply unsaved_step, Hu'.
Qed.

End Shutdown.

(** X16. Once the operator has quit, shutdown always completes, in either
    program. From any reachable state in which [frame_processor.running] is
    false, as soon as [main] has executed [length sliders + 9] further
    statements (the rest of its iteration, [join()], [camera.release()],
    [save_config]) the camera is released and [main] has ended: either it
    returned and the storage is what [save_config] made of the startup
    storage and the final shared dict, or [save_config] raised and [main]
    ended by that exception. *)
Theorem quit_completes_shutdown :
  forall (frame : Type) (p : program) (w : world frame) (sched sched' : list thread),
    well_formed p ->
    let s := exec p w sched in
    let s' := run p w sched' s in
    running s = false ->
    (length (sliders p) + 9 <= mains sched')%nat ->
    released s' = true /\
    ((mpc s' = MReturned /\
      save_on_exit p (config s') (disk w) = (fs s', Ok tt)) \/
     (exists e, mpc s' = MRaised e /\
                save_on_exit p (config s') (disk w) = (fs s', Raise e))).
Proof.
  intros frame p w sched sched' wf s s' Hf Hn.
  destruct (closing_run p w s sched' (sane_exec p w sched) (unsaved_exec p w sched)
              (guarded_exec p w wf sched) Hf)
    as [(_ & _ & _ & Hs & _ & Hrel & Hrem) Hu].
  fold s' in Hs, Hrel, Hrem, Hu. unfold unsaved in Hu.
  destruct (mpc s') eqn:Em; simpl in *; try discriminate;
    try (destruct (mpc s); simpl in *; lia).
  - split; [exact Hrel|]. left. split; [reflexivity|].
    destruct Hu as [[Hu _]|[_ Hu]]; [congruence|exact Hu].
  - split; [exact Hrel|]. right. exists e. split; [reflexivity|].
    destruct Hu as [[Hu _]|[_ Hu]]; [congruence|exact Hu].
Qed.

Lemma quit_completes_shutdown_witness :
  released (run ExtendedMain.prog quits (replicate 15 Main)
              (exec ExtendedMain.prog quits
                 (replicate 16 Main ++ replicate 13 Processor))) = true /\
  mpc (run ExtendedMain.prog quits (replicate 15 Main)
         (exec ExtendedMain.prog quits
            (replicate 16 Main ++ replicate 13 Processor))) = MReturned.
Proof.
  assert (running (exec ExtendedMain.prog quits
                     (replicate 16 Main ++ replicate 13 Processor)) = false) as Hf
    by (vm_compute; reflexivity).
  assert (length (sliders ExtendedMain.prog) + 9 <= mains (replicate 15 Main))%nat as Hn
    by (vm_compute; lia).
  destruct (quit_completes_shutdown nat ExtendedMain.prog quits
              (replicate 16 Main ++ replicate 13 Processor) (replicate 15 Main)
              extended_well_formed Hf Hn) as [Hr _].
  split; [exact Hr|]. vm_compute. reflexivity.
Defined.

(** ** What the exit save writes *)

Section Latest.

Context {frame : Type} (p : program) (w : world frame).
Hypothesis wf : well_formed p.

(** A dict that differs from the startup dict at most under the keys the
    trackbars assign. *)
Definition based (c : gmap string pyval) : Prop :=
  exists c0, startup_config p w = VDict c0 /\
             forall k, k ∉ slider_key <$> sliders p -> c !! k = c0 !! k.

(** Outside the critical section of [main], the shared dict is the startup
    value until a set is published, and from then on carries the last
    published set under the trackbar keys. *)
Definition last_set (pub : list (gmap string pyval)) (v : pyval) : Prop :=
  match last pub with
  | Some u =>
      exists c, v = VDict c /\ based c /\
                forall sl, sl ∈ sliders p -> c !! slider_key sl = u !! slider_key sl
  | None => v = startup_config p w
  end.

Definition latest (s : state frame) : Prop :=
  match mpc s with
  | MLoad => fs s = disk w /\ published s = []
  | MAssign i =>
      match config s with
      | VDict c => based c /\ assigned p i (update s) c
      | _ => i = 0%nat /\ published s = [] /\ config s = startup_config p w
      end
  | _ => last_set (published s) (config s)
  end.

Lemma proc_keeps_main_side (s : state frame) :
  mpc (step_proc p w s) = mpc s /\ config (step_proc p w s) = config s /\
  published (step_proc p w s) = published s /\
  update (step_proc p w s) = update s /\ fs (step_proc p w s) = fs s.
Proof. unfold step_proc. repeat case_match; repeat split; reflexivity. Qed.

Lemma last_set_enter (s : state frame) :
  last_set (published s) (config s) ->
  match config s with
  | VDict c => based c /\ assigned p 0 ∅ c
  | _ => 0%nat = 0%nat /\ published s = [] /\ config s = startup_config p w
  end.
Proof.
  unfold last_set. destruct (last (published s)) as [u|] eqn:El.
  - intros (c & -> & Hb & _). split; [exact Hb|].
    intros sl Hsl. rewrite take_0 in Hsl. apply elem_of_nil in Hsl. destruct Hsl.
  - apply last_None in El. intros Hc. destruct (config s) eqn:Ec; auto.
    split.
    + exists d. split; [congruence|]. reflexivity.
    + intros sl Hsl. rewrite take_0 in Hsl. apply elem_of_nil in Hsl. destruct Hsl.
Qed.

Lemma based_insert (i : nat) (sl : slider) (v : pyval) (c : gmap string pyval) :
  sliders p !! i = Some sl -> based c -> based (<[slider_key sl := v]> c).
Proof.
  intros Hi (c0 & E0 & Hc). exists c0. split; [exact E0|]. intros k Hk.
  rewrite lookup_insert_ne; [apply Hc, Hk|].
  intros <-. apply Hk, list_elem_of_fmap. exists sl. split; [reflexivity|].
  apply (list_elem_of_lookup_2 _ i), Hi.
Qed.

Lemma latest_step (t : thread) (s : state frame) :
  latest s -> latest (step p w t s).
Proof.
  destruct t; cbn [step].
  - unfold latest, step_main. destruct (mpc s) eqn:Em.
    + intros [Hf Hp]. unfold last_set.
      destruct (load_config p (fs s)) as [c l] eqn:El. simpl. rewrite Hp. simpl.
      unfold startup_config. rewrite <- Hf, El. reflexivity.
    + destruct (camera_opens w); simpl; auto.
    + destruct (setup_reads _ _); [destruct (setup_error w)|]; simpl; auto.
    + simpl. auto.
    + destruct (running s); simpl; auto.
    + destruct (camera_read w (iter s)); simpl; auto.
    + simpl. auto.
    + destruct (lock s); [rewrite Em; auto|]. simpl. apply last_set_enter.
    + destruct (sliders p !! i) as [sl|] eqn:Ei.
      * destruct (config s) as [| | | | | |c] eqn:Ec; simpl;
          try (intros (-> & Hp & Hc); unfold last_set; rewrite Hp, Ec; exact Hc).
        intros [Hb Ha]. split; [eapply based_insert; eassumption|].
        apply assigned_next; assumption.
      * destruct (config s) as [| | | | | |c] eqn:Ec; simpl;
          try (intros (-> & _); destruct wf as [Hne _];
               destruct (sliders p); [congruence|discriminate]).
        intros [Hb Ha]. unfold last_set. rewrite last_snoc.
        exists c. split; [exact Ec|]. split; [exact Hb|].
        intros sl Hsl. symmetry. apply Ha. rewrite take_ge; [exact Hsl|].
        apply lookup_ge_None, Ei.
    + simpl. auto.
    + destruct (ppc s); simpl; rewrite ?Em; auto.
    + simpl. auto.
    + destruct (save_on_exit p (config s) (fs s)) as [fs' [u|e]]; simpl; auto.
    + rewrite Em. auto.
    + rewrite Em. auto.
  - unfold latest.
    destruct (proc_keeps_main_side s) as (-> & -> & -> & -> & ->). auto.
Qed.

Lemma latest_exec (sched : list thread) : latest (exec p w sched).
Proof.
  unfold exec. apply run_invariant.
  - apply latest_step.
  - split; reflexivity.
Qed.

(** After a completed shutdown the storage is what [save_config] made of the
    startup storage, given a shared dict that is the startup dict with the
    last published set written over the trackbar keys. *)
Lemma saved_from_last_set (sched : list thread) :
  mpc (exec p w sched) = MReturned -> released (exec p w sched) = true ->
  save_on_exit p (config (exec p w sched)) (disk w) = (fs (exec p w sched), Ok tt) /\
  last_set (published (exec p w sched)) (config (exec p w sched)).
Proof.
  intros Em Hr.
  pose proof (unsaved_exec p w sched) as Hu.
  pose proof (latest_exec sched) as Hl.
  unfold unsaved in Hu. unfold latest in Hl. rewrite Em in Hu, Hl.
  split; [|exact Hl].
  destruct Hu as [[Hu _]|[_ Hu]]; [congruence|exact Hu].
Qed.

End Latest.

Lemma json_dump_ok (v : pyval) (fs fs' : filesys) :
  json_dump v fs = (fs', Ok tt) -> fs' = FileSys (Holds v) Healthy.
Proof. unfold json_dump. destruct (storage fs); intros H; congruence. Qed.

Lemma last_elem_of {A : Type} (l : list A) (x : A) : last l = Some x -> x ∈ l.
Proof.
  induction l as [|y l IH]; [discriminate|].
  destruct l as [|z l]; simpl.
  - intros [= ->]. apply list_elem_of_here.
  - intros H. apply elem_of_cons. right. apply IH, H.
Qed.

(** X17. What line_follower_main.py leaves in config.json. Whenever its
    [main] has returned after releasing the camera, the file holds the shared
    dict itself. If a critical section of [main] was completed, that dict
    carries under each of the six trackbar keys the value of the last
    completed set, which is the conversion of the six positions reported in
    one and the same loop iteration, and under every other key what
    [load_config] returned at startup; if none was completed, the file holds
    what [load_config] returned. *)
Theorem extended_exit_file_holds_last_set :
  forall (frame : Type) (w : world frame) (sched : list thread),
    let s := exec ExtendedMain.prog w sched in
    mpc s = MReturned -> released s = true ->
    fs s = FileSys (Holds (config s)) Healthy /\
    match last (published s) with
    | Some u =>
        exists c c0,
          config s = VDict c /\
          fst (Extended.load_config (disk w)) = VDict c0 /\
          (forall k, k ∈ ExtendedMain.lookups -> c !! k = u !! k) /\
          (forall k, k ∉ ExtendedMain.lookups -> c !! k = c0 !! k) /\
          exists n, forall sl, sl ∈ ExtendedMain.sliders ->
                      u !! slider_key sl =
                        Some (slider_value sl (trackbar_pos w n (slider_name sl)))
    | None => config s = fst (Extended.load_config (disk w))
    end.
Proof.
  intros frame w sched s Em Hr.
  destruct (saved_from_last_set ExtendedMain.prog w extended_well_formed sched Em Hr)
    as [Hs Hl].
  fold s in Hs, Hl. split.
  - apply (json_dump_ok _ (disk w)). exact Hs.
  - unfold last_set in Hl. destruct (last (published s)) as [u|] eqn:El; [|exact Hl].
    destruct Hl as (c & Ec & (c0 & E0 & Hc0) & Hc).
    exists c, c0. split; [exact Ec|]. split; [exact E0|]. split; [|split].
    + intros k Hk.
      apply (proj2 (proj2 extended_well_formed)), list_elem_of_fmap in Hk
        as (sl & -> & Hsl).
      apply Hc, Hsl.
    + intros k Hk. apply Hc0. exact Hk.
    + apply last_elem_of in El.
      destruct (published_are_readings ExtendedMain.prog w extended_well_formed
                  sched u El) as [n Hn].
      exists n. exact Hn.
Qed.

Lemma extended_exit_file_holds_last_set_witness :
  mpc (exec ExtendedMain.prog quits (until_quit 6)) = MReturned /\
  released (exec ExtendedMain.prog quits (until_quit 6)) = true /\
  fs (exec ExtendedMain.prog quits (until_quit 6)) =
    FileSys (Holds (config (exec ExtendedMain.prog quits (until_quit 6)))) Healthy.
Proof.
  assert (mpc (exec ExtendedMain.prog quits (until_quit 6)) = MReturned) as Em
    by (vm_compute; reflexivity).
  assert (released (exec ExtendedMain.prog quits (until_quit 6)) = true) as Hr
    by (vm_compute; reflexivity).
  pose proof (extended_exit_file_holds_last_set nat quits (until_quit 6) Em Hr) as [H _].
  split; [exact Em|]. split; [exact Hr|]. exact H.
Defined.

(** X18. What Line_detection.py leaves in config.json. Whenever its [main]
    has returned after releasing the camera, the file holds a dict of exactly
    the two keys [min_val] and [max_val], whatever else the file held at
    startup. If a critical section of [main] was completed, the two values
    are those of the last completed set, the two trackbar positions reported
    in one and the same loop iteration; if none was completed, they are the
    two values of what [load_config] returned. *)
Theorem base_exit_file_holds_two_keys :
  forall (frame : Type) (w : world frame) (sched : list thread),
    let s := exec BaseMain.prog w sched in
    mpc s = MReturned -> released s = true ->
    exists a b,
      fs s = FileSys (Holds (VDict (<["min_val" := a]> (<["max_val" := b]> ∅)))) Healthy /\
      match last (published s) with
      | Some u =>
          u !! "min_val" = Some a /\ u !! "max_val" = Some b /\
          exists n, a = VInt (trackbar_pos w n "min_val") /\
                    b = VInt (trackbar_pos w n "max_val")
      | None =>
          py_getitem (fst (Base.load_config (disk w))) "min_val" = Ok a /\
          py_getitem (fst (Base.load_config (disk w))) "max_val" = Ok b
      end.
Proof.
  intros frame w sched s Em Hr.
  destruct (saved_from_last_set BaseMain.prog w base_well_formed sched Em Hr)
    as [Hs Hl].
  fold s in Hs, Hl.
  change (save_on_exit BaseMain.prog) with BaseMain.save_on_exit in Hs.
  unfold BaseMain.save_on_exit in Hs.
  destruct (py_getitem (config s) "min_val") as [a|e] eqn:Ea; [|simpl in Hs; congruence].
  destruct (py_getitem (config s) "max_val") as [b|e] eqn:Eb; [|simpl in Hs; congruence].
  simpl in Hs. unfold Base.save_config in Hs. apply json_dump_ok in Hs.
  exists a, b. split; [exact Hs|].
  unfold last_set in Hl. destruct (last (published s)) as [u|] eqn:El.
  - destruct Hl as (c & Ec & _ & Hc). rewrite Ec in Ea, Eb. simpl in Ea, Eb.
    assert (Slider "min_val" 255 "min_val" VInt ∈ sliders BaseMain.prog) as Hmin
      by (unfold BaseMain.prog, BaseMain.sliders; simpl; in_list).
    assert (Slider "max_val" 255 "max_val" VInt ∈ sliders BaseMain.prog) as Hmax
      by (unfold BaseMain.prog, BaseMain.sliders; simpl; in_list).
    assert (u !! "min_val" = Some a) as Ha.
    { pose proof (Hc _ Hmin) as H. simpl in H. rewrite <- H.
      destruct (c !! "min_val"); congruence. }
    assert (u !! "max_val" = Some b) as Hb.
    { pose proof (Hc _ Hmax) as H. simpl in H. rewrite <- H.
      destruct (c !! "max_val"); congruence. }
    split; [exact Ha|]. split; [exact Hb|].
    apply last_elem_of in El.
    destruct (published_are_readings BaseMain.prog w base_well_formed sched u El)
      as [n Hn].
    exists n. split.
    + pose proof (Hn _ Hmin) as H.
      unfold slider_reading in H. simpl in H. congruence.
    + pose proof (Hn _ Hmax) as H.
      unfold slider_reading in H. simpl in H. congruence.
  - change (fst (Base.load_config (disk w))) with (startup_config BaseMain.prog w).
    rewrite <- Hl. split; assumption.
Qed.

Lemma base_exit_file_holds_two_keys_witness :
  mpc (exec BaseMain.prog quits (until_quit 2)) = MReturned /\
  released (exec BaseMain.prog quits (until_quit 2)) = true /\
  config_json (fs (exec BaseMain.prog quits (until_quit 2))) =
    Holds (VDict (<["min_val" := VInt 7]> (<["max_val" := VInt 7]> ∅))).
Proof.
  assert (mpc (exec BaseMain.prog quits (until_quit 2)) = MReturned) as Em
    by (vm_compute; reflexivity).
  assert (released (exec BaseMain.prog quits (until_quit 2)) = true) as Hr
    by (vm_compute; reflexivity).
  destruct (base_exit_file_holds_two_keys nat quits (until_quit 2) Em Hr)
    as (a & b & Hf & _).
  split; [exact Em|]. split; [exact Hr|]. vm_compute. reflexivity.
Defined.

(** ** The quit key *)

Lemma low_byte (k : Z) : Z.land k 255 = k mod 256.
Proof. change 255 with (Z.ones 8). rewrite Z.land_ones by lia. reflexivity. Qed.

Section QuitKey.

Context {frame : Type} (p : program) (w : world frame).

(** While the flag is true no poll of the consumer has reported [q] in its
    low byte; once it is false, the last poll has, and it is the first. *)
Definition first_q (s : state frame) : Prop :=
  if running s
  then forall n, (n < polls s)%nat -> Z.land (key_pressed w n) 255 <> ord_q
  else exists n, polls s = S n /\ Z.land (key_pressed w n) 255 = ord_q /\
                 forall m, (m < n)%nat -> Z.land (key_pressed w m) 255 <> ord_q.

Lemma main_keeps_polls (s : state frame) :
  polls (step_main p w s) = polls s /\
  (running (step_main p w s) = running s \/
   mpc s = MStart /\ running (step_main p w s) = true).
Proof.
  unfold step_main. destruct (mpc s) eqn:Em;
    try (split; [|right; split]; reflexivity);
    repeat case_match; split; auto.
Qed.

Lemma proc_polls_at_wait_key (s : state frame) :
  polls (step_proc p w s) = polls s /\ running (step_proc p w s) = running s \/
  ppc s = PWaitKey.
Proof.
  unfold step_proc. destruct (ppc s); auto; left; repeat case_match; auto.
Qed.

Lemma first_q_step (t : thread) (s : state frame) :
  sane s -> first_q s -> first_q (step p w t s).
Proof.
  intros (_ & _ & Hs & Hr) H. unfold first_q in *. destruct t; cbn [step].
  - destruct (main_keeps_polls s) as [-> [->|[Em ->]]]; [exact H|].
    destruct (running s); [exact H|].
    specialize (Hr eq_refl). rewrite Em in Hs. specialize (Hs eq_refl). congruence.
  - destruct (proc_polls_at_wait_key s) as [[-> ->]|Ep]; [exact H|].
    unfold step_proc. rewrite Ep in *.
    destruct (running s) eqn:Er; [|specialize (Hr eq_refl); discriminate].
    destruct (Z.land (key_pressed w (polls s)) 255 =? ord_q) eqn:Eq; simpl.
    + exists (polls s). split; [reflexivity|]. split; [|exact H].
      apply Z.eqb_eq, Eq.
    + rewrite Er. intros n Hn.
      destruct (decide (n = polls s)) as [->|Hne]; [apply Z.eqb_neq, Eq|].
      apply H. lia.
Qed.

Lemma first_q_exec (sched : list thread) : first_q (exec p w sched).
Proof.
  assert (sane (exec p w sched) /\ first_q (exec p w sched)) as [_ H]; [|exact H].
  unfold exec. apply run_invariant.
  - intros t s [Hs Hq]. split; [apply sane_step, Hs|apply first_q_step; assumption].
  - split; [apply (sane_exec p w [])|]. unfold first_q. simpl. intros n Hn. lia.
Qed.

End QuitKey.

(** X19. The run is ended by the first poll of the consumer that reports
    [q], and by nothing else. In every reachable state of either program:
    while [frame_processor.running] is true, none of the [cv2.waitKey(1)]
    results the consumer has seen is 113 modulo 256; when it is false, the
    last result the consumer has seen is 113 modulo 256 and no earlier one
    is. So a key code with high bits set above [q] quits as well, the result
    -1 of a poll without a key does not, and [main]'s own [cv2.waitKey(1)]
    never ends the run. *)
Theorem quit_is_the_first_q_poll :
  forall (frame : Type) (p : program) (w : world frame) (sched : list thread),
    let s := exec p w sched in
    (running s = true ->
     forall n, (n < polls s)%nat -> key_pressed w n mod 256 <> 113) /\
    (running s = false ->
     exists n, polls s = S n /\ key_pressed w n mod 256 = 113 /\
               forall m, (m < n)%nat -> key_pressed w m mod 256 <> 113).
Proof.
  intros frame p w sched s. pose proof (first_q_exec p w sched) as H.
  fold s in H. unfold first_q, ord_q in H. split; intros Hr; rewrite Hr in H.
  - intros n Hn. rewrite <- low_byte. apply H, Hn.
  - destruct H as (n & Hp & Hq & Hm). exists n. split; [exact Hp|].
    split; [rewrite <- low_byte; exact Hq|].
    intros m Hlt. rewrite <- low_byte. apply Hm, Hlt.
Qed.
